(** * wecan-hub: the pickup lifecycle of the driver job board and the
      admin dashboard, over a model of the Supabase tables they use.

    Sources embedded here:
    - [pages/driver/jobs.tsx]        (module [DriverJobs])
    - [pages/admin/index_backup.tsx] (module [AdminBackup])
    - [pages/admin/index_new.tsx]    (module [AdminNew])
    - [supabase/seed.sql]            (the tables)
    - the report page of a bin, the bin locator map and
      [pages/partner/join.tsx]       (over the [Partner] and [Bin] tables)

    The pages talk to the database through the supabase-js query builder.
    Section [Supabase] models the builder calls that the pages make:
    a filtered [update], a filtered and ordered [select], an [insert] and
    [single].  A builder call answers with a response [{ data, error }];
    [error] is set when the round trip itself fails, never because a
    filter matched no row.  The row-level security policies of seed.sql
    are not modelled: the caller is taken to have access to both
    tables. *)

From Stdlib Require Import List ZArith String Bool Lia.
From Stdlib Require Import Permutation Sorted.
Import ListNotations.

Local Open Scope string_scope.
Local Open Scope Z_scope.

(* ================================================================== *)
(** ** Rows of the tables (seed.sql, and the TypeScript interfaces)    *)
(* ================================================================== *)

(** [state text check (state in ('queued','assigned','collected','delivered'))] *)
Inductive State : Type :=
| queued
| assigned
| collected
| delivered.

Definition State_eqb (a b : State) : bool :=
  match a, b with
  | queued, queued | assigned, assigned
  | collected, collected | delivered, delivered => true
  | _, _ => false
  end.

(** Timestamps ([timestamptz], ISO strings on the client) as a count of
    milliseconds. *)
Definition Timestamp := Z.

(** [interface Pickup] of jobs.tsx; [volunteer_id : string | null]. *)
Record Pickup : Type := mkPickup {
  id : string;
  bin_id : string;
  volunteer_id : option string;
  state : State;
  created_at : Timestamp;
  updated_at : Timestamp
}.

(** [interface Impact]; the three columns are nullable [int]s.  Client
    arithmetic on them is JavaScript number addition, which is exact
    integer addition while the totals stay below 2^53; they are modelled
    as [Z]. *)
Record Impact : Type := mkImpact {
  cans : option Z;
  revenue_pence : option Z;
  meals : option Z
}.

(** [const { user } = useUser()]: no user, or a user with an [id]. *)
Record User : Type := mkUser { user_id : string }.

(* ================================================================== *)
(** ** The store: tables, round-trip failures, responses               *)
(* ================================================================== *)

(** The error object of a failed builder call. *)
Inductive PgError : Type :=
| pg_error (code : string).

(** The database as the pages see it.  [faults] is the schedule of
    round-trip failures: every builder call consumes its head; [None]
    (or an exhausted schedule) lets the call through. *)
Record World : Type := mkWorld {
  Pickup_table : list Pickup;
  Impact_table : list Impact;
  faults : list (option PgError)
}.

(** [{ data, error }] *)
Record Response (A : Type) : Type := mkResponse {
  data : option A;
  error : option PgError
}.
Arguments mkResponse {A} _ _.
Arguments data {A} _.
Arguments error {A} _.

(** What a [mutationFn] or [queryFn] can throw: the error object of a
    response, or a JavaScript error. *)
Inductive Thrown : Type :=
| thrown_pg (e : PgError)
| thrown_js (message : string).

(** An async function body: it runs against the world and either
    resolves with a value or rejects with what was thrown. *)
Definition Async (A : Type) : Type := World -> (Thrown + A) * World.

Definition resolve {A} (a : A) : Async A := fun w => (inr a, w).
Definition throw {A} (t : Thrown) : Async A := fun w => (inl t, w).
Definition await {A B} (m : Async A) (k : A -> Async B) : Async B :=
  fun w =>
    match m w with
    | (inl t, w') => (inl t, w')
    | (inr a, w') => k a w'
    end.

Notation "'let*' x ':=' m 'in' k" := (await m (fun x => k))
  (at level 10, x name, m at level 100, k at level 200).

(** The head of the fault schedule, and the rest. *)
Definition next_fault (w : World) : option PgError * list (option PgError) :=
  match faults w with
  | [] => (None, [])
  | f :: rest => (f, rest)
  end.

Section Supabase.

(** *** Filters on [Pickup]: [.eq(column, value)] and [.in('state', values)] *)
Inductive PickupFilter : Type :=
| eq_id (v : string)
| eq_state (v : State)
| eq_volunteer_id (v : string)
| in_state (vs : list State).

(** A row passes [.eq('volunteer_id', v)] only when the column is not
    null and equals [v]. *)
Definition passes (f : PickupFilter) (p : Pickup) : bool :=
  match f with
  | eq_id v => String.eqb (id p) v
  | eq_state v => State_eqb (state p) v
  | eq_volunteer_id v =>
      match volunteer_id p with
      | Some u => String.eqb u v
      | None => false
      end
  | in_state vs => existsb (State_eqb (state p)) vs
  end.

(** Chained filters are a conjunction. *)
Definition passes_all (fs : list PickupFilter) (p : Pickup) : bool :=
  forallb (fun f => passes f p) fs.

(** *** The object given to [.update({...})]: the columns it names *)
Record PickupPatch : Type := mkPatch {
  set_state : option State;
  set_volunteer_id : option string;
  set_updated_at : option Timestamp
}.

Definition patch_row (u : PickupPatch) (p : Pickup) : Pickup :=
  {| id := id p;
     bin_id := bin_id p;
     volunteer_id :=
       match set_volunteer_id u with
       | Some v => Some v
       | None => volunteer_id p
       end;
     state :=
       match set_state u with
       | Some s => s
       | None => state p
       end;
     created_at := created_at p;
     updated_at :=
       match set_updated_at u with
       | Some t => t
       | None => updated_at p
       end |}.

(** [supabase.from('Pickup').update(u).eq(..)...]: every row that
    passes all the filters is patched, the others are kept.  The
    response carries an error only when the round trip failed; a
    filter that lets no row through is not an error. *)
Definition from_Pickup_update (u : PickupPatch) (fs : list PickupFilter)
  : Async (Response unit) :=
  fun w =>
    match next_fault w with
    | (Some e, rest) =>
        (inr (mkResponse None (Some e)),
         mkWorld (Pickup_table w) (Impact_table w) rest)
    | (None, rest) =>
        (inr (mkResponse None None),
         mkWorld
           (map (fun p => if passes_all fs p then patch_row u p else p)
                (Pickup_table w))
           (Impact_table w) rest)
    end.

(** [.order('created_at', { ascending: true })]: rows by increasing
    [created_at].  The database leaves the order of rows with equal
    keys open; here they stay in table order. *)
Fixpoint insert_by_created_at (p : Pickup) (l : list Pickup) : list Pickup :=
  match l with
  | [] => [p]
  | q :: l' =>
      if created_at p <=? created_at q
      then p :: q :: l'
      else q :: insert_by_created_at p l'
  end.

Definition order_created_at_ascending (l : list Pickup) : list Pickup :=
  fold_right insert_by_created_at [] l.

(** [supabase.from('Pickup').select(..).eq(..)...
      .order('created_at', { ascending: true })].
    The embedded [Bin ( .. Partner ( .. ) )] columns of the driver
    queries only decorate each row and are left out. *)
Definition from_Pickup_select_ascending (fs : list PickupFilter)
  : Async (Response (list Pickup)) :=
  fun w =>
    match next_fault w with
    | (Some e, rest) =>
        (inr (mkResponse None (Some e)),
         mkWorld (Pickup_table w) (Impact_table w) rest)
    | (None, rest) =>
        (inr (mkResponse
                (Some (order_created_at_ascending
                         (filter (passes_all fs) (Pickup_table w))))
                None),
         mkWorld (Pickup_table w) (Impact_table w) rest)
    end.

(** [supabase.from('Impact').insert(row)]: the row is appended. *)
Definition from_Impact_insert (r : Impact) : Async (Response unit) :=
  fun w =>
    match next_fault w with
    | (Some e, rest) =>
        (inr (mkResponse None (Some e)),
         mkWorld (Pickup_table w) (Impact_table w) rest)
    | (None, rest) =>
        (inr (mkResponse None None),
         mkWorld (Pickup_table w) (Impact_table w ++ [r]) rest)
    end.

(** [supabase.from('Impact').select(..)]: all rows, in table order. *)
Definition from_Impact_select : Async (Response (list Impact)) :=
  fun w =>
    match next_fault w with
    | (Some e, rest) =>
        (inr (mkResponse None (Some e)),
         mkWorld (Pickup_table w) (Impact_table w) rest)
    | (None, rest) =>
        (inr (mkResponse (Some (Impact_table w)) None),
         mkWorld (Pickup_table w) (Impact_table w) rest)
    end.

(** [supabase.from('Impact').select('*').single()]: the one row of the
    result; the response is an error (PGRST116) unless the result has
    exactly one row. *)
Definition from_Impact_select_single : Async (Response Impact) :=
  fun w =>
    match next_fault w with
    | (Some e, rest) =>
        (inr (mkResponse None (Some e)),
         mkWorld (Pickup_table w) (Impact_table w) rest)
    | (None, rest) =>
        (inr (match Impact_table w with
              | [r] => mkResponse (Some r) None
              | _ => mkResponse None (Some (pg_error "PGRST116"))
              end),
         mkWorld (Pickup_table w) (Impact_table w) rest)
    end.

End Supabase.

(** The page's view of its caller: [useUser()] and the client clock read
    by [new Date()]. *)
Record Client : Type := mkClient {
  user : option User;
  clock : Timestamp
}.

(** [user?.id] when it is truthy: there is a user and the id is not the
    empty string. *)
Definition truthy_user_id (u : option User) : option string :=
  match u with
  | Some v => if String.eqb (user_id v) "" then None else Some (user_id v)
  | None => None
  end.

(** [if (error) throw error], then the rest of the function. *)
Definition throw_if_error {A B} (r : Response A) (k : Async B) : Async B :=
  match error r with
  | Some e => throw (thrown_pg e)
  | None => k
  end.

(** What [useMutation] shows when [mutate] settles: [onSuccess] or
    [onError] raise a toast ([invalidateQueries] only refreshes the
    page's cached lists). *)
Inductive Toast : Type :=
| toast_success (message : string)
| toast_error (message : string).

Definition useMutation (mutationFn : Async unit)
    (onSuccess onError : string) (w : World) : Toast * World :=
  match mutationFn w with
  | (inr _, w') => (toast_success onSuccess, w')
  | (inl _, w') => (toast_error onError, w')
  end.

(* ================================================================== *)
(** ** pages/driver/jobs.tsx                                           *)
(* ================================================================== *)

Module DriverJobs.

(** [availableJobs]: [.eq('state', 'queued').order('created_at', ..)] *)
Definition availableJobs_queryFn : Async (option (list Pickup)) :=
  let* r := from_Pickup_select_ascending [eq_state queued] in
  throw_if_error r (resolve (data r)).

(** [myJobs]: [if (!user?.id) return []], then
    [.eq('volunteer_id', user.id).in('state', ['assigned', 'collected'])
     .order('created_at', ..)] *)
Definition myJobs_queryFn (c : Client) : Async (option (list Pickup)) :=
  match truthy_user_id (user c) with
  | None => resolve (Some [])
  | Some uid =>
      let* r := from_Pickup_select_ascending
                  [eq_volunteer_id uid; in_state [assigned; collected]] in
      throw_if_error r (resolve (data r))
  end.

(** [acceptJob.mutationFn] *)
Definition acceptJob_mutationFn (c : Client) (pickupId : string)
  : Async unit :=
  match truthy_user_id (user c) with
  | None => throw (thrown_js "User not authenticated")
  | Some uid =>
      let* r := from_Pickup_update
                  {| set_state := Some assigned;
                     set_volunteer_id := Some uid;
                     set_updated_at := Some (clock c) |}
                  [eq_id pickupId; eq_state queued] in
      throw_if_error r (resolve tt)
  end.

Definition acceptJob (c : Client) (pickupId : string) : World -> Toast * World :=
  useMutation (acceptJob_mutationFn c pickupId)
    "Job accepted successfully!"
    "Failed to accept job. It may have been taken by another driver.".

(** [markCollected.mutationFn]; it does not read [user]. *)
Definition markCollected_mutationFn (c : Client) (pickupId : string)
  : Async unit :=
  let* r := from_Pickup_update
              {| set_state := Some collected;
                 set_volunteer_id := None;
                 set_updated_at := Some (clock c) |}
              [eq_id pickupId; eq_state assigned] in
  throw_if_error r (resolve tt).

Definition markCollected (c : Client) (pickupId : string)
  : World -> Toast * World :=
  useMutation (markCollected_mutationFn c pickupId)
    "Marked as collected!"
    "Failed to mark as collected".

(** [markDelivered.mutationFn]: first the pickup update, then the
    impact insert; it does not read [user]. *)
Definition markDelivered_mutationFn (c : Client) (pickupId : string)
  : Async unit :=
  let* r1 := from_Pickup_update
               {| set_state := Some delivered;
                  set_volunteer_id := None;
                  set_updated_at := Some (clock c) |}
               [eq_id pickupId; eq_state collected] in
  throw_if_error r1
    (let* r2 := from_Impact_insert
                  {| cans := Some 200;
                     revenue_pence := Some 160;
                     meals := Some 10 |} in
     throw_if_error r2 (resolve tt)).

Definition markDelivered (c : Client) (pickupId : string)
  : World -> Toast * World :=
  useMutation (markDelivered_mutationFn c pickupId)
    "Delivery completed! Impact recorded."
    "Failed to mark as delivered".

End DriverJobs.

(* ================================================================== *)
(** ** pages/admin/index_backup.tsx                                    *)
(* ================================================================== *)

(** [x || 0] on a nullable number. *)
Definition or_zero (x : option Z) : Z :=
  match x with
  | Some v => if v =? 0 then 0 else v
  | None => 0
  end.

(** The totals object [{ cans, revenue_pence, meals }] built by the
    reducer: its fields are numbers, never null. *)
Record Totals : Type := mkTotals {
  total_cans : Z;
  total_revenue_pence : Z;
  total_meals : Z
}.

Module AdminBackup.

(** The reducer passed to [data.reduce]. *)
Definition reducer (acc : Totals) (curr : Impact) : Totals :=
  {| total_cans := total_cans acc + or_zero (cans curr);
     total_revenue_pence :=
       total_revenue_pence acc + or_zero (revenue_pence curr);
     total_meals := total_meals acc + or_zero (meals curr) |}.

(** [data.reduce(reducer, { cans: 0, revenue_pence: 0, meals: 0 })] *)
Definition totals (rows : list Impact) : Totals :=
  fold_left reducer rows (mkTotals 0 0 0).

(** The [impact] query: select the three columns of every row and
    reduce ([data.reduce] on a null [data] is a TypeError). *)
Definition impact_queryFn : Async Totals :=
  let* r := from_Impact_select in
  throw_if_error r
    (match data r with
     | Some rows => resolve (totals rows)
     | None => throw (thrown_js "TypeError")
     end).

(** [updatePickupState.mutationFn({ id, state })]: the state chosen in
    the dashboard's select box, filtered by [id] only. *)
Definition updatePickupState_mutationFn (c : Client)
    (pickupId : string) (s : State) : Async unit :=
  let* r := from_Pickup_update
              {| set_state := Some s;
                 set_volunteer_id := None;
                 set_updated_at := Some (clock c) |}
              [eq_id pickupId] in
  throw_if_error r (resolve tt).

Definition updatePickupState (c : Client) (pickupId : string) (s : State)
  : World -> Toast * World :=
  useMutation (updatePickupState_mutationFn c pickupId s)
    "Pickup updated"
    "Failed to update pickup".

End AdminBackup.

(* ================================================================== *)
(** ** pages/admin/index_new.tsx                                       *)
(* ================================================================== *)

Module AdminNew.

(** The [impact] query: [.select('*').single()]; [data] is returned
    as it is. *)
Definition impact_queryFn : Async (option Impact) :=
  let* r := from_Impact_select_single in
  throw_if_error r (resolve (data r)).

(** [updatePickup.mutationFn({ id, state })] *)
Definition updatePickup_mutationFn (c : Client)
    (pickupId : string) (s : State) : Async unit :=
  let* r := from_Pickup_update
              {| set_state := Some s;
                 set_volunteer_id := None;
                 set_updated_at := Some (clock c) |}
              [eq_id pickupId] in
  throw_if_error r (resolve tt).

Definition updatePickup (c : Client) (pickupId : string) (s : State)
  : World -> Toast * World :=
  useMutation (updatePickup_mutationFn c pickupId s)
    "Pickup updated successfully"
    "Failed to update pickup".

End AdminNew.

(* ================================================================== *)
(** ** Vocabulary of the properties                                    *)
(* ================================================================== *)

(** The next builder call gets through. *)
Definition round_trip_ok (w : World) : Prop := fst (next_fault w) = None.

(** No builder call fails from here on. *)
Definition no_faults (w : World) : Prop := faults w = [].

(** [volunteer_id] is absent exactly when the pickup is queued. *)
Definition volunteer_iff_claimed (p : Pickup) : Prop :=
  volunteer_id p = None <-> state p = queued.

(** The linear chain queued, assigned, collected, delivered. *)
Definition rank (s : State) : Z :=
  match s with
  | queued => 0
  | assigned => 1
  | collected => 2
  | delivered => 3
  end.

Definition next_state (s : State) : option State :=
  match s with
  | queued => Some assigned
  | assigned => Some collected
  | collected => Some delivered
  | delivered => None
  end.

(** One transition of a row: it stays where it is or moves to the next
    state of the chain. *)
Definition stays_or_advances (p p' : Pickup) : Prop :=
  state p' = state p \/ next_state (state p) = Some (state p').

(** The operations of the pages that write to the [Pickup] table. *)
Inductive PickupMutation : Type :=
| by_acceptJob (c : Client) (pickupId : string)
| by_markCollected (c : Client) (pickupId : string)
| by_markDelivered (c : Client) (pickupId : string)
| by_updatePickupState (c : Client) (pickupId : string) (s : State)
| by_updatePickup (c : Client) (pickupId : string) (s : State).

Definition mutate (m : PickupMutation) : World -> Toast * World :=
  match m with
  | by_acceptJob c i => DriverJobs.acceptJob c i
  | by_markCollected c i => DriverJobs.markCollected c i
  | by_markDelivered c i => DriverJobs.markDelivered c i
  | by_updatePickupState c i s => AdminBackup.updatePickupState c i s
  | by_updatePickup c i s => AdminNew.updatePickup c i s
  end.

(** The mutations of the driver page, as opposed to the dashboard's
    select box. *)
Definition of_driver_page (m : PickupMutation) : bool :=
  match m with
  | by_acceptJob _ _ | by_markCollected _ _ | by_markDelivered _ _ => true
  | by_updatePickupState _ _ _ | by_updatePickup _ _ _ => false
  end.

(** Mutations one after the other, as the store serialises them; the
    toasts are returned in call order. *)
Fixpoint mutate_all (ms : list PickupMutation) (w : World)
  : list Toast * World :=
  match ms with
  | [] => ([], w)
  | m :: ms' =>
      let (t, w') := mutate m w in
      let (ts, w'') := mutate_all ms' w' in
      (t :: ts, w'')
  end.

(** What each mutation does to one row when its write gets through
    (lemma [mutate_rows] derives it from the builder calls). *)
Definition row_effect (m : PickupMutation) (p : Pickup) : Pickup :=
  match m with
  | by_acceptJob c i =>
      match truthy_user_id (user c) with
      | Some uid =>
          if passes_all [eq_id i; eq_state queued] p
          then mkPickup (id p) (bin_id p) (Some uid) assigned
                        (created_at p) (clock c)
          else p
      | None => p
      end
  | by_markCollected c i =>
      if passes_all [eq_id i; eq_state assigned] p
      then mkPickup (id p) (bin_id p) (volunteer_id p) collected
                    (created_at p) (clock c)
      else p
  | by_markDelivered c i =>
      if passes_all [eq_id i; eq_state collected] p
      then mkPickup (id p) (bin_id p) (volunteer_id p) delivered
                    (created_at p) (clock c)
      else p
  | by_updatePickupState c i s | by_updatePickup c i s =>
      if passes_all [eq_id i] p
      then mkPickup (id p) (bin_id p) (volunteer_id p) s
                    (created_at p) (clock c)
      else p
  end.

(** The worlds a sequence of mutations goes through, the first one
    included. *)
Fixpoint history (ms : list PickupMutation) (w : World) : list World :=
  match ms with
  | [] => [w]
  | m :: ms' => w :: history ms' (snd (mutate m w))
  end.

(** Row by row, from one world to a later one. *)
Definition each_row_stays_or_advances (w w' : World) : Prop :=
  Forall2 stays_or_advances (Pickup_table w) (Pickup_table w').

Definition no_row_moves_back (w w' : World) : Prop :=
  Forall2 (fun p p' => rank (state p) <= rank (state p'))
          (Pickup_table w) (Pickup_table w').

(** A conditional write as the specification words it: a row with the
    given id whose state is the expected one becomes [after]; every
    other row is left as it is. *)
Definition conditional_write (pickupId : string) (expected : State)
    (after : Pickup -> Pickup) (p p' : Pickup) : Prop :=
  (id p = pickupId /\ state p = expected -> p' = after p) /\
  (~ (id p = pickupId /\ state p = expected) -> p' = p).

(** The sum of one column over the ledger, a null counting as zero. *)
Definition column_sum (col : Impact -> option Z) (rows : list Impact) : Z :=
  fold_right Z.add 0 (map (fun r => match col r with Some v => v | None => 0 end) rows).

(** The rows [listAvailable] and [listMine] are specified to return. *)
Definition is_available (p : Pickup) : bool := State_eqb (state p) queued.

Definition is_mine (volunteerId : string) (p : Pickup) : bool :=
  match volunteer_id p with
  | Some v => String.eqb v volunteerId
  | None => false
  end
  && (State_eqb (state p) assigned || State_eqb (state p) collected).

Definition oldest_first : Pickup -> Pickup -> Prop :=
  fun p q => created_at p <= created_at q.

(** The fixed impact of one delivery. *)
Definition delivery_impact : Impact := mkImpact (Some 200) (Some 160) (Some 10).

(** Sample data. *)
Definition driverA : Client := mkClient (Some (mkUser "driverA")) 5000.
Definition driverB : Client := mkClient (Some (mkUser "driverB")) 6000.
Definition driverC : Client := mkClient (Some (mkUser "driverC")) 7000.
Definition admin : Client := mkClient (Some (mkUser "admin")) 8000.

Definition pickup_P (v : option string) (s : State) : Pickup :=
  mkPickup "P" "bin-1" v s 1000 2000.

Definition world_of (p : Pickup) : World := mkWorld [p] [] [].

From Stdlib Require QArith_base.

(* ================================================================== *)
(** ** pages/driver/jobs.tsx: what the page renders                    *)
(* ================================================================== *)

(** [classNames(...classes)]: [classes.filter(Boolean).join(' ')].  The
    same function opens both dashboards. *)
Definition Boolean_string (s : string) : bool :=
  negb (String.eqb s "").

Definition classNames (classes : list string) : string :=
  String.concat " " (filter Boolean_string classes).

(** The buttons of the job cards, each with the mutation its [onClick]
    calls. *)
Inductive Button : Type :=
| button_markCollected (pickupId : string)
| button_markDelivered (pickupId : string)
| button_acceptJob (pickupId : string).

Module DriverJobsPage.

(** A card of "My Active Jobs":
    [{job.state === 'assigned' && (<button .. markCollected ..>)}]
    [{job.state === 'collected' && (<button .. markDelivered ..>)}] *)
Definition myJob_buttons (job : Pickup) : list Button :=
  (if State_eqb (state job) assigned
   then [button_markCollected (id job)] else []) ++
  (if State_eqb (state job) collected
   then [button_markDelivered (id job)] else []).

(** A card of "Available Jobs" always has its "Accept Job" button. *)
Definition availableJob_buttons (job : Pickup) : list Button :=
  [button_acceptJob (id job)].

(** The page: the spinner while [loading], the log-in notice without a
    user, otherwise the cards of both lists. *)
Definition buttons (loading : bool) (c : Client)
    (myJobs availableJobs : list Pickup) : list Button :=
  if loading then []
  else match user c with
       | None => []
       | Some _ =>
           flat_map myJob_buttons myJobs ++
           flat_map availableJob_buttons availableJobs
       end.

Definition onClick (c : Client) (b : Button) : World -> Toast * World :=
  match b with
  | button_markCollected i => DriverJobs.markCollected c i
  | button_markDelivered i => DriverJobs.markDelivered c i
  | button_acceptJob i => DriverJobs.acceptJob c i
  end.

End DriverJobsPage.

(* ================================================================== *)
(** ** pages/admin/index_backup.tsx: the pickups board                 *)
(* ================================================================== *)

(** [.order('created_at', { ascending: false })]: rows by decreasing
    [created_at]; rows with equal keys stay in table order. *)
Fixpoint insert_by_created_at_descending (p : Pickup) (l : list Pickup)
  : list Pickup :=
  match l with
  | [] => [p]
  | q :: l' =>
      if created_at q <=? created_at p
      then p :: q :: l'
      else q :: insert_by_created_at_descending p l'
  end.

Definition order_created_at_descending (l : list Pickup) : list Pickup :=
  fold_right insert_by_created_at_descending [] l.

(** [supabase.from('Pickup').select('*')
      .order('created_at', { ascending: false })] *)
Definition from_Pickup_select_descending : Async (Response (list Pickup)) :=
  fun w =>
    match next_fault w with
    | (Some e, rest) =>
        (inr (mkResponse None (Some e)),
         mkWorld (Pickup_table w) (Impact_table w) rest)
    | (None, rest) =>
        (inr (mkResponse
                (Some (order_created_at_descending (Pickup_table w)))
                None),
         mkWorld (Pickup_table w) (Impact_table w) rest)
    end.

(** The object [pickupsByState]: one list per state. *)
Record PickupsByState : Type := mkPickupsByState {
  queued_pickups : list Pickup;
  assigned_pickups : list Pickup;
  collected_pickups : list Pickup;
  delivered_pickups : list Pickup
}.

Module AdminBackupBoard.

(** The [pickups] query of both dashboards. *)
Definition pickups_queryFn : Async (option (list Pickup)) :=
  let* r := from_Pickup_select_descending in
  throw_if_error r (resolve (data r)).

(** [pickups.filter(p => p.state === 'queued')] and so on. *)
Definition pickupsByState (pickups : list Pickup) : PickupsByState :=
  {| queued_pickups := filter (fun p => State_eqb (state p) queued) pickups;
     assigned_pickups :=
       filter (fun p => State_eqb (state p) assigned) pickups;
     collected_pickups :=
       filter (fun p => State_eqb (state p) collected) pickups;
     delivered_pickups :=
       filter (fun p => State_eqb (state p) delivered) pickups |}.

(** [Object.entries(pickupsByState)]: the columns in key order. *)
Definition columns (b : PickupsByState) : list (State * list Pickup) :=
  [(queued, queued_pickups b); (assigned, assigned_pickups b);
   (collected, collected_pickups b); (delivered, delivered_pickups b)].

End AdminBackupBoard.

(** Vocabulary for the properties of these parts. *)
Definition newest_first : Pickup -> Pickup -> Prop :=
  fun p q => created_at q <= created_at p.

(** The columns a mutation never writes. *)
Definition same_identity (p p' : Pickup) : Prop :=
  id p' = id p /\ bin_id p' = bin_id p /\ created_at p' = created_at p.

Definition is_markDelivered (m : PickupMutation) : bool :=
  match m with
  | by_markDelivered _ _ => true
  | _ => false
  end.

Definition is_acceptJob (m : PickupMutation) : bool :=
  match m with
  | by_acceptJob _ _ => true
  | _ => false
  end.

(** A row moved to state [s] at time [t]. *)
Definition moved_to (s : State) (t : Timestamp) (p : Pickup) : Pickup :=
  mkPickup (id p) (bin_id p) (volunteer_id p) s (created_at p) t.

(* ================================================================== *)
(** ** The dashboards: QR codes of the bins                            *)
(* ================================================================== *)

(** [getReportUrl(binId)]: the page's origin when there is a [window],
    the placeholder domain otherwise. *)
Definition getReportUrl (window_location_origin : option string)
    (binId : string) : string :=
  match window_location_origin with
  | Some origin => origin ++ "/bins/" ++ binId ++ "/report"
  | None => "https://your-domain.com/bins/" ++ binId ++ "/report"
  end.

(** The complement of the class [[^a-zA-Z0-9]].  Strings are taken
    with code units below 256, one [ascii] each. *)
Definition is_alphanumeric (ch : Ascii.ascii) : bool :=
  let n := Ascii.nat_of_ascii ch in
  (Nat.leb 48 n && Nat.leb n 57) ||
  (Nat.leb 65 n && Nat.leb n 90) ||
  (Nat.leb 97 n && Nat.leb n 122).

(** The replacement character ['_'], code unit 95. *)
Definition underscore : Ascii.ascii := Ascii.ascii_of_nat 95.

(** [partnerName.replace(/[^a-zA-Z0-9]/g, '_')] *)
Fixpoint replace_non_alphanumeric (s : string) : string :=
  match s with
  | EmptyString => EmptyString
  | String ch s' =>
      String (if is_alphanumeric ch then ch else underscore)
             (replace_non_alphanumeric s')
  end.

(** The name both dashboards give the download:
    [`bin-${binId}-qr-${partnerName.replace(..)}.png`]. *)
Definition qr_file_name (binId partnerName : string) : string :=
  "bin-" ++ binId ++ "-qr-" ++ replace_non_alphanumeric partnerName ++ ".png".

(** [downloadQR(binId, partnerName)] of index_new: when the element
    [qr-<binId>] is in the document, its image loads and the canvas
    has a 2d context, the image is downloaded under that name;
    otherwise nothing is downloaded. *)
Definition downloadQR (svg_found image_loaded has_context : bool)
    (binId partnerName : string) : option string :=
  if svg_found
  then if image_loaded
       then if has_context
            then Some (qr_file_name binId partnerName)
            else None
       else None
  else None.

(** The characters the pattern lets through, and its replacement. *)
Definition file_name_safe (ch : Ascii.ascii) : Prop :=
  is_alphanumeric ch = true \/ ch = underscore.

(* ================================================================== *)
(** ** Partners and bins (seed.sql, and the pages that use them)       *)
(* ================================================================== *)

(** [numeric] columns ([lat], [lng]).  The pages only pass them on. *)
Definition Numeric : Type := QArith_base.Q.

Module Partner.

(** [status text check (status in ('pending','approved'))] *)
Inductive Status : Type :=
| pending
| approved.

Definition Status_eqb (a b : Status) : bool :=
  match a, b with
  | pending, pending | approved, approved => true
  | _, _ => false
  end.

(** [interface Partner] of the dashboards. *)
Record row : Type := mk {
  id : string;
  name : string;
  address : string;
  lat : Numeric;
  lng : Numeric;
  status : Status;
  created_at : Timestamp
}.

End Partner.

Module Bin.

(** [status text check (status in ('empty','full','needs_pickup'))] *)
Inductive Status : Type :=
| empty
| full
| needs_pickup.

Definition Status_eqb (a b : Status) : bool :=
  match a, b with
  | empty, empty | full, full | needs_pickup, needs_pickup => true
  | _, _ => false
  end.

(** [interface Bin]; [partner_id] is a nullable reference in seed.sql. *)
Record row : Type := mk {
  id : string;
  partner_id : option string;
  lat : Numeric;
  lng : Numeric;
  status : Status;
  last_emptied_at : option Timestamp
}.

(** [Partial<Bin>]: the columns an update names. *)
Record patch : Type := mkPatch {
  set_partner_id : option (option string);
  set_lat : option Numeric;
  set_lng : option Numeric;
  set_status : option Status;
  set_last_emptied_at : option (option Timestamp)
}.

Definition or_kept {A} (new : option A) (old : A) : A :=
  match new with
  | Some v => v
  | None => old
  end.

Definition patch_row (u : patch) (b : row) : row :=
  {| id := id b;
     partner_id := or_kept (set_partner_id u) (partner_id b);
     lat := or_kept (set_lat u) (lat b);
     lng := or_kept (set_lng u) (lng b);
     status := or_kept (set_status u) (status b);
     last_emptied_at := or_kept (set_last_emptied_at u) (last_emptied_at b) |}.

(** [{ status: s }] *)
Definition only_status (s : Status) : patch :=
  mkPatch None None None (Some s) None.

End Bin.

(** The [Partner] and [Bin] tables, with their own schedule of
    round-trip failures. *)
Record Registry : Type := mkRegistry {
  Partner_table : list Partner.row;
  Bin_table : list Bin.row;
  registry_faults : list (option PgError)
}.

Definition next_registry_fault (r : Registry)
  : option PgError * list (option PgError) :=
  match registry_faults r with
  | [] => (None, [])
  | f :: rest => (f, rest)
  end.

(** One round trip: a failure leaves the tables as they are and
    answers with the error; otherwise the call answers [data] and the
    tables become [partners] and [bins]. *)
Definition registry_round_trip {A} (r : Registry) (data : option A)
    (partners : list Partner.row) (bins : list Bin.row)
  : Response A * Registry :=
  match next_registry_fault r with
  | (Some e, rest) =>
      (mkResponse None (Some e),
       mkRegistry (Partner_table r) (Bin_table r) rest)
  | (None, rest) =>
      (mkResponse data None, mkRegistry partners bins rest)
  end.

(** A stable insertion sort for [.order(..)]: [before x y] tells that
    [x] may come before [y]. *)
Fixpoint insert_ordered {A} (before : A -> A -> bool) (x : A) (l : list A)
  : list A :=
  match l with
  | [] => [x]
  | y :: l' =>
      if before x y then x :: y :: l'
      else y :: insert_ordered before x l'
  end.

Definition ordered {A} (before : A -> A -> bool) (l : list A) : list A :=
  fold_right (insert_ordered before) [] l.

(** [supabase.from('Partner').update({ status }).eq('id', id)] *)
Definition from_Partner_update_status (s : Partner.Status) (partnerId : string)
    (r : Registry) : Response unit * Registry :=
  registry_round_trip r None
    (map (fun p =>
            if String.eqb (Partner.id p) partnerId
            then Partner.mk (Partner.id p) (Partner.name p)
                            (Partner.address p) (Partner.lat p)
                            (Partner.lng p) s (Partner.created_at p)
            else p)
         (Partner_table r))
    (Bin_table r).

(** [supabase.from('Partner').insert(row)]: the row is appended. *)
Definition from_Partner_insert (p : Partner.row) (r : Registry)
  : Response unit * Registry :=
  registry_round_trip r None (Partner_table r ++ [p]) (Bin_table r).

(** [supabase.from('Partner').select('*').eq('status', 'pending')
      .order('created_at', { ascending: false })] *)
Definition from_Partner_select_pending (r : Registry)
  : Response (list Partner.row) * Registry :=
  registry_round_trip r
    (Some (ordered
             (fun p q => Partner.created_at q <=? Partner.created_at p)
             (filter (fun p => Partner.Status_eqb (Partner.status p)
                                                  Partner.pending)
                     (Partner_table r))))
    (Partner_table r) (Bin_table r).

(** [supabase.from('Bin').update(updates).eq('id', id)] *)
Definition from_Bin_update (u : Bin.patch) (binId : string) (r : Registry)
  : Response unit * Registry :=
  registry_round_trip r None (Partner_table r)
    (map (fun b => if String.eqb (Bin.id b) binId
                   then Bin.patch_row u b else b)
         (Bin_table r)).

(** The partner a bin refers to: the row of the [Partner] table whose
    primary key is the bin's [partner_id]. *)
Definition partner_of (partners : list Partner.row) (b : Bin.row)
  : option Partner.row :=
  match Bin.partner_id b with
  | Some pid => find (fun p => String.eqb (Partner.id p) pid) partners
  | None => None
  end.

(** [{ ascending: true, nullsFirst: true }] on [last_emptied_at]. *)
Definition nulls_first_ascending (x y : option Timestamp) : bool :=
  match x, y with
  | None, _ => true
  | Some _, None => false
  | Some a, Some b => a <=? b
  end.

(** [supabase.from('Bin').select(`*, Partner ( id, name, status )`)
      .order('last_emptied_at', { ascending: true, nullsFirst: true })]:
    every bin, with its partner when it has one. *)
Definition from_Bin_select_with_Partner (r : Registry)
  : Response (list (Bin.row * option Partner.row)) * Registry :=
  registry_round_trip r
    (Some (map (fun b => (b, partner_of (Partner_table r) b))
               (ordered
                  (fun b c => nulls_first_ascending (Bin.last_emptied_at b)
                                                    (Bin.last_emptied_at c))
                  (Bin_table r))))
    (Partner_table r) (Bin_table r).

(** [supabase.from('Bin').select(`.., Partner!inner ( .. )`)
      .in('status', ['empty', 'full']).eq('Partner.status', 'approved')]:
    the bins in one of the two states whose partner exists and is
    approved, each with that partner, in table order. *)
Definition from_Bin_select_inner_approved_Partner (r : Registry)
  : Response (list (Bin.row * Partner.row)) * Registry :=
  registry_round_trip r
    (Some (flat_map
             (fun b =>
                if existsb (Bin.Status_eqb (Bin.status b))
                           [Bin.empty; Bin.full]
                then match partner_of (Partner_table r) b with
                     | Some p =>
                         if Partner.Status_eqb (Partner.status p)
                                               Partner.approved
                         then [(b, p)] else []
                     | None => []
                     end
                else [])
             (Bin_table r)))
    (Partner_table r) (Bin_table r).

(** [if (error) throw error], then [return data] (queries) or nothing
    (mutations), for a call on the registry. *)
Definition settled {A} (answer : Response A * Registry)
  : (Thrown + option A) * Registry :=
  match error (fst answer) with
  | Some e => (inl (thrown_pg e), snd answer)
  | None => (inr (data (fst answer)), snd answer)
  end.

(** [useMutation] over the registry: the toast of [onSuccess] or of
    [onError]. *)
Definition toasted {A} (result : (Thrown + A) * Registry)
    (onSuccess onError : string) : Toast * Registry :=
  match fst result with
  | inr _ => (toast_success onSuccess, snd result)
  | inl _ => (toast_error onError, snd result)
  end.

(* ================================================================== *)
(** ** The dashboards: partners and bins                               *)
(* ================================================================== *)

(** Both dashboards: the [pendingPartners] and [bins] queries. *)
Definition pendingPartners_queryFn (r : Registry)
  : (Thrown + option (list Partner.row)) * Registry :=
  settled (from_Partner_select_pending r).

Definition bins_queryFn (r : Registry)
  : (Thrown + option (list (Bin.row * option Partner.row))) * Registry :=
  settled (from_Bin_select_with_Partner r).

Module AdminBackupPartners.

(** [updatePartnerStatus.mutationFn({ id, status })] *)
Definition updatePartnerStatus_mutationFn (partnerId : string)
    (s : Partner.Status) (r : Registry) : (Thrown + option unit) * Registry :=
  settled (from_Partner_update_status s partnerId r).

Definition updatePartnerStatus (partnerId : string) (s : Partner.Status)
    (r : Registry) : Toast * Registry :=
  toasted (updatePartnerStatus_mutationFn partnerId s r)
    "Partner status updated" "Failed to update partner status".

(** The two buttons of a row of the "Pending Partners" table. *)
Definition Approve (p : Partner.row) : Registry -> Toast * Registry :=
  updatePartnerStatus (Partner.id p) Partner.approved.

Definition Reject (p : Partner.row) : Registry -> Toast * Registry :=
  updatePartnerStatus (Partner.id p) Partner.pending.

(** [updateBin.mutationFn({ id, updates })] *)
Definition updateBin (binId : string) (updates : Bin.patch) (r : Registry)
  : Toast * Registry :=
  toasted (settled (from_Bin_update updates binId r))
    "Bin updated" "Failed to update bin".

End AdminBackupPartners.

Module AdminNewPartners.

(** [approvePartner.mutationFn(partnerId)] *)
Definition approvePartner (partnerId : string) (r : Registry)
  : Toast * Registry :=
  toasted (settled (from_Partner_update_status Partner.approved partnerId r))
    "Partner approved successfully" "Failed to approve partner".

Definition updateBin (binId : string) (updates : Bin.patch) (r : Registry)
  : Toast * Registry :=
  toasted (settled (from_Bin_update updates binId r))
    "Bin updated successfully" "Failed to update bin".

End AdminNewPartners.

(* ================================================================== *)
(** ** The report page of a bin (the page a QR code leads to)          *)
(* ================================================================== *)

(** [router.query.id]: absent, one string, or several. *)
Inductive QueryParam : Type :=
| param_undefined
| param_string (s : string)
| param_array (l : list string).

Module BinReport.

Inductive Status : Type :=
| status_loading
| status_success
| status_error.

(** The two pieces of state, [status] and [error]. *)
Record View : Type := mkView {
  status : Status;
  error_text : string
}.

Definition initial : View := mkView status_loading "".

(** [reportBinFull]: [!id || typeof id !== 'string'] rejects a missing
    id, the empty string and an array; otherwise the bin is set to
    ['full']. *)
Definition reportBinFull (id : QueryParam) (v : View) (r : Registry)
  : View * Registry :=
  match id with
  | param_string s =>
      if String.eqb s "" then (mkView status_error "Invalid bin ID", r)
      else
        let answer := from_Bin_update (Bin.only_status Bin.full) s r in
        match error (fst answer) with
        | Some _ =>
            (mkView status_error
               "Failed to report bin as full. Please try again.",
             snd answer)
        | None => (mkView status_success (error_text v), snd answer)
        end
  | _ => (mkView status_error "Invalid bin ID", r)
  end.

(** The effect: [if (router.isReady) reportBinFull()]. *)
Definition useEffect (isReady : bool) (id : QueryParam) (v : View)
    (r : Registry) : View * Registry :=
  if isReady then reportBinFull id v r else (v, r).

(** The heading of what the page renders. *)
Definition heading (v : View) : string :=
  match status v with
  | status_loading => "Reporting bin status..."
  | status_error => "Oops!"
  | status_success => "Thank You!"
  end.

End BinReport.

(* ================================================================== *)
(** ** The bin locator map                                             *)
(* ================================================================== *)

Module BinMap.

(** The state of the page: [bins], [loading], [error]. *)
Record View : Type := mkView {
  bins : list (Bin.row * Partner.row);
  loading : bool;
  error_text : option string
}.

Definition initial : View := mkView [] true None.

(** [fetchBinsAndPartners] *)
Definition fetchBinsAndPartners (v : View) (r : Registry) : View * Registry :=
  let answer := from_Bin_select_inner_approved_Partner r in
  match error (fst answer) with
  | Some _ =>
      (mkView (bins v) false (Some "Failed to load bin locations"),
       snd answer)
  | None =>
      (mkView (match data (fst answer) with Some rows => rows | None => [] end)
              false (error_text v),
       snd answer)
  end.

(** [defaultCenter] (London) and [mapCenter]. *)
Definition defaultCenter : Numeric * Numeric :=
  (QArith_base.Qmake 515074 10000, QArith_base.Qmake (-1278) 10000).

Definition mapCenter (v : View) : Numeric * Numeric :=
  match bins v with
  | (b, _) :: _ => (Bin.lat b, Bin.lng b)
  | [] => defaultCenter
  end.

End BinMap.

(* ================================================================== *)
(** ** pages/partner/join.tsx                                          *)
(* ================================================================== *)

(** [toast.info], [toast.success], [toast.error] *)
Inductive Notice : Type :=
| notice_info (message : string)
| notice_success (message : string)
| notice_error (message : string).

Module PartnerJoin.

Record FormData : Type := mkFormData {
  name : string;
  address : string
}.

Record GeocodingResult : Type := mkGeocodingResult {
  lat : string;
  lon : string;
  display_name : string
}.

(** What [fetch] came back with: a rejection, or a response with its
    [ok] flag and, when the body parses, its JSON. *)
Inductive Fetched : Type :=
| fetch_rejected
| fetch_response (ok : bool) (json : option (list GeocodingResult)).

(** The rules given to [register]: both fields required, the name of
    at least 2 and the address of at least 10 characters. *)
Definition valid (d : FormData) : bool :=
  negb (String.eqb (name d) "") && Nat.leb 2 (String.length (name d)) &&
  negb (String.eqb (address d) "") && Nat.leb 10 (String.length (address d)).

(** What the page shows after a submission. *)
Record View : Type := mkView {
  notices : list Notice;
  isSuccess : bool;
  isSubmitting : bool
}.

Section Geocoding.

(** [parseFloat], as a function from strings to numbers. *)
Variable parseFloat : string -> Numeric.

(** [geocodeAddress]: every failure is caught and gives [null]. *)
Definition geocodeAddress (f : Fetched) : option (Numeric * Numeric) :=
  match f with
  | fetch_rejected => None
  | fetch_response false _ => None
  | fetch_response true None => None
  | fetch_response true (Some []) => None
  | fetch_response true (Some (first :: _)) =>
      Some (parseFloat (lat first), parseFloat (lon first))
  end.

(** [onSubmit(data)]; [generated_id] and [db_now] are the defaults the
    database fills in for [id] and [created_at]. *)
Definition onSubmit (d : FormData) (f : Fetched)
    (generated_id : string) (db_now : Timestamp) (r : Registry)
  : View * Registry :=
  match geocodeAddress f with
  | None =>
      (mkView [notice_info "Looking up address...";
               notice_error
                 "Could not find the address. Please check and try again."]
              false false,
       r)
  | Some (latitude, longitude) =>
      let answer :=
        from_Partner_insert
          (Partner.mk generated_id (name d) (address d)
                      latitude longitude Partner.pending db_now) r in
      match error (fst answer) with
      | Some _ =>
          (mkView [notice_info "Looking up address...";
                   notice_info "Submitting application...";
                   notice_error
                     "Failed to submit application. Please try again."]
                  false false,
           snd answer)
      | None =>
          (mkView [notice_info "Looking up address...";
                   notice_info "Submitting application...";
                   notice_success "Application submitted successfully!"]
                  true false,
           snd answer)
      end
  end.

(** [handleSubmit(onSubmit)]: the form is submitted only when it
    passes the rules. *)
Definition handleSubmit (d : FormData) (f : Fetched)
    (generated_id : string) (db_now : Timestamp) (r : Registry)
  : option View * Registry :=
  if valid d
  then (Some (fst (onSubmit d f generated_id db_now r)),
        snd (onSubmit d f generated_id db_now r))
  else (None, r).

End Geocoding.

End PartnerJoin.

(** Vocabulary for the properties of the registry. *)
Definition registry_no_faults (r : Registry) : Prop := registry_faults r = [].

Definition shown_on_map (s : Bin.Status) : Prop :=
  s = Bin.empty \/ s = Bin.full.

(** Never-emptied bins first, then by increasing [last_emptied_at]. *)
Definition emptied_no_later (b c : Bin.row) : Prop :=
  match Bin.last_emptied_at b, Bin.last_emptied_at c with
  | None, _ => True
  | Some _, None => False
  | Some x, Some y => x <= y
  end.

Definition applied_no_earlier (p q : Partner.row) : Prop :=
  Partner.created_at q <= Partner.created_at p.

(* ================================================================== *)
(** ** Basic facts about the store model                               *)
(* ================================================================== *)

Lemma State_eqb_eq (a b : State) : State_eqb a b = true <-> a = b.
Proof. destruct a, b; simpl; split; intro H; congruence. Qed.

Lemma State_eqb_neq (a b : State) : State_eqb a b = false <-> a <> b.
Proof. destruct a, b; simpl; split; intro H; congruence. Qed.

(** What passing [.eq('id', i).eq('state', s)] means for a row. *)
Lemma passes_id_and_state (i : string) (s : State) (p : Pickup) :
  passes_all [eq_id i; eq_state s] p = true <-> id p = i /\ state p = s.
Proof.
  unfold passes_all; simpl.
  rewrite andb_true_r, andb_true_iff, String.eqb_eq, State_eqb_eq.
  tauto.
Qed.

Lemma passes_id_only (i : string) (p : Pickup) :
  passes_all [eq_id i] p = true <-> id p = i.
Proof.
  unfold passes_all; simpl. rewrite andb_true_r. apply String.eqb_eq.
Qed.

Lemma Forall2_map_self {A} (R : A -> A -> Prop) (f : A -> A) (l : list A) :
  (forall x, In x l -> R x (f x)) -> Forall2 R l (map f l).
Proof.
  induction l as [|x l IH]; intros H; simpl; constructor.
  - apply H; now left.
  - apply IH; intros y Hy; apply H; now right.
Qed.

Lemma Forall2_same {A} (R : A -> A -> Prop) (l : list A) :
  (forall x, In x l -> R x x) -> Forall2 R l l.
Proof.
  intros H. rewrite <- (map_id l) at 2. now apply Forall2_map_self.
Qed.

(** The one filtered update behind every pickup mutation: the table
    after it is the old table, or the old table with the passing rows
    patched, according to the fault schedule; the impact table is not
    touched. *)
Lemma from_Pickup_update_runs (u : PickupPatch) (fs : list PickupFilter)
    (w : World) :
  (round_trip_ok w /\
   from_Pickup_update u fs w =
     (inr (mkResponse None None),
      mkWorld (map (fun p => if passes_all fs p then patch_row u p else p)
                   (Pickup_table w))
              (Impact_table w) (snd (next_fault w))))
  \/
  (exists e, fst (next_fault w) = Some e /\
   from_Pickup_update u fs w =
     (inr (mkResponse None (Some e)),
      mkWorld (Pickup_table w) (Impact_table w) (snd (next_fault w)))).
Proof.
  unfold from_Pickup_update, round_trip_ok.
  destruct (next_fault w) as [[e|] rest]; simpl.
  - right. exists e. auto.
  - left. auto.
Qed.

Ltac run_update u fs w :=
  destruct (from_Pickup_update_runs u fs w) as [[? ->] | [? [? ->]]].

Ltac settle_rows :=
  simpl;
  first [ left; split; [assumption | apply map_ext; intro; reflexivity]
        | right; split; [eexists; eassumption | reflexivity] ].

(** The rows after any pickup mutation: the image of the rows before
    under [row_effect] when the write gets through, the rows before
    when it fails. *)
Lemma mutate_rows (m : PickupMutation) (w : World) :
  (round_trip_ok w /\
   Pickup_table (snd (mutate m w)) = map (row_effect m) (Pickup_table w))
  \/
  ((exists e, fst (next_fault w) = Some e) /\
   Pickup_table (snd (mutate m w)) = Pickup_table w).
Proof.
  destruct m as [c i | c i | c i | c i s | c i s]; simpl;
    unfold DriverJobs.acceptJob, DriverJobs.markCollected,
      DriverJobs.markDelivered, AdminBackup.updatePickupState,
      AdminNew.updatePickup, useMutation,
      DriverJobs.acceptJob_mutationFn, DriverJobs.markCollected_mutationFn,
      DriverJobs.markDelivered_mutationFn,
      AdminBackup.updatePickupState_mutationFn,
      AdminNew.updatePickup_mutationFn, await, row_effect.
  - destruct (truthy_user_id (user c)) as [uid|].
    + match goal with |- context [from_Pickup_update ?u ?fs w] =>
        run_update u fs w end; settle_rows.
    + simpl. unfold round_trip_ok.
      destruct (fst (next_fault w)) as [e|].
      * right; split; [now exists e | reflexivity].
      * left; split; [reflexivity | now rewrite map_id].
  - match goal with |- context [from_Pickup_update ?u ?fs w] =>
      run_update u fs w end; settle_rows.
  - match goal with |- context [from_Pickup_update ?u ?fs w] =>
      run_update u fs w end; simpl;
      [|right; split; [eexists; eassumption | reflexivity]].
    left; split; [assumption|].
    generalize (snd (next_fault w)); intros later.
    unfold from_Impact_insert, next_fault; simpl.
    destruct later as [|[e|] rest]; simpl; apply map_ext; intro; reflexivity.
  - match goal with |- context [from_Pickup_update ?u ?fs w] =>
      run_update u fs w end; settle_rows.
  - match goal with |- context [from_Pickup_update ?u ?fs w] =>
      run_update u fs w end; settle_rows.
Qed.

(** [row_effect] on a row that the filters let through or hold back. *)
Lemma row_effect_cases (m : PickupMutation) (p : Pickup) :
  row_effect m p = p \/
  match m with
  | by_acceptJob c i =>
      exists uid, truthy_user_id (user c) = Some uid /\
        id p = i /\ state p = queued /\
        row_effect m p = mkPickup (id p) (bin_id p) (Some uid) assigned
                                  (created_at p) (clock c)
  | by_markCollected c i =>
      id p = i /\ state p = assigned /\
      row_effect m p = mkPickup (id p) (bin_id p) (volunteer_id p) collected
                                (created_at p) (clock c)
  | by_markDelivered c i =>
      id p = i /\ state p = collected /\
      row_effect m p = mkPickup (id p) (bin_id p) (volunteer_id p) delivered
                                (created_at p) (clock c)
  | by_updatePickupState c i s | by_updatePickup c i s =>
      id p = i /\
      row_effect m p = mkPickup (id p) (bin_id p) (volunteer_id p) s
                                (created_at p) (clock c)
  end.
Proof.
  destruct m as [c i | c i | c i | c i s | c i s]; unfold row_effect.
  - destruct (truthy_user_id (user c)) as [uid|]; [|now left].
    destruct (passes_all _ p) eqn:E; [|now left].
    apply passes_id_and_state in E. right. exists uid. tauto.
  - destruct (passes_all _ p) eqn:E; [|now left].
    apply passes_id_and_state in E. right. tauto.
  - destruct (passes_all _ p) eqn:E; [|now left].
    apply passes_id_and_state in E. right. tauto.
  - destruct (passes_all _ p) eqn:E; [|now left].
    apply passes_id_only in E. right. tauto.
  - destruct (passes_all _ p) eqn:E; [|now left].
    apply passes_id_only in E. right. tauto.
Qed.

(** A driver-page mutation keeps the volunteer invariant of a row. *)
Lemma row_effect_keeps_invariant (m : PickupMutation) (p : Pickup) :
  of_driver_page m = true ->
  volunteer_iff_claimed p -> volunteer_iff_claimed (row_effect m p).
Proof.
  intros Hm Hp.
  destruct (row_effect_cases m p) as [-> | H]; [assumption|].
  unfold volunteer_iff_claimed in *.
  destruct m as [c i | c i | c i | c i s | c i s]; try discriminate Hm.
  - destruct H as (uid & _ & _ & _ & ->); simpl. split; discriminate.
  - destruct H as (_ & Hs & ->); simpl.
    split; [|discriminate]. intros Hv. apply Hp in Hv. congruence.
  - destruct H as (_ & Hs & ->); simpl.
    split; [|discriminate]. intros Hv. apply Hp in Hv. congruence.
Qed.

(** A driver-page mutation leaves the state of a row where it is or
    moves it one step along the chain. *)
Lemma row_effect_advances (m : PickupMutation) (p : Pickup) :
  of_driver_page m = true -> stays_or_advances p (row_effect m p).
Proof.
  intros Hm. unfold stays_or_advances.
  destruct (row_effect_cases m p) as [-> | H]; [now left|].
  destruct m as [c i | c i | c i | c i s | c i s]; try discriminate Hm.
  - destruct H as (uid & _ & _ & Hs & ->); simpl. right. now rewrite Hs.
  - destruct H as (_ & Hs & ->); simpl. right. now rewrite Hs.
  - destruct H as (_ & Hs & ->); simpl. right. now rewrite Hs.
Qed.

Lemma stays_or_advances_rank (p p' : Pickup) :
  stays_or_advances p p' -> rank (state p) <= rank (state p').
Proof.
  unfold stays_or_advances. intros [-> | H]; [lia|].
  destruct (state p), (state p'); simpl in *; try discriminate; lia.
Qed.

Lemma step_advances (m : PickupMutation) (w : World) :
  of_driver_page m = true ->
  Forall2 stays_or_advances (Pickup_table w) (Pickup_table (snd (mutate m w))).
Proof.
  intros Hm.
  destruct (mutate_rows m w) as [[_ ->] | [_ ->]].
  - apply Forall2_map_self. intros p _. now apply row_effect_advances.
  - apply Forall2_same. intros p _. now left.
Qed.

Lemma no_row_moves_back_refl (w : World) : no_row_moves_back w w.
Proof. apply Forall2_same. intros; lia. Qed.

Lemma no_row_moves_back_trans (w1 w2 w3 : World) :
  no_row_moves_back w1 w2 -> no_row_moves_back w2 w3 ->
  no_row_moves_back w1 w3.
Proof.
  unfold no_row_moves_back.
  generalize (Pickup_table w1) (Pickup_table w2) (Pickup_table w3).
  intros l1 l2 l3 H12. revert l3.
  induction H12 as [|p q l1 l2 Hpq _ IH]; intros l3 H23;
    inversion H23; subst; constructor.
  - lia.
  - now apply IH.
Qed.

Lemma advance_is_no_move_back (w w' : World) :
  each_row_stays_or_advances w w' -> no_row_moves_back w w'.
Proof.
  unfold each_row_stays_or_advances, no_row_moves_back.
  induction 1; constructor; auto using stays_or_advances_rank.
Qed.

Lemma history_head (ms : list PickupMutation) (w : World) :
  exists tl, history ms w = w :: tl.
Proof. destruct ms; simpl; eauto. Qed.

(* ================================================================== *)
(** ** C4: the volunteer invariant                                     *)
(* ================================================================== *)

(** C4, as stated, fails: the dashboard's [updatePickupState] writes the
    state chosen in the select box and leaves [volunteer_id] alone, so
    setting a queued pickup to [assigned] yields an assigned pickup
    without a volunteer. *)
Lemma admin_override_breaks_volunteer_invariant :
  ~ (forall (m : PickupMutation) (w : World),
        Forall volunteer_iff_claimed (Pickup_table w) ->
        Forall volunteer_iff_claimed (Pickup_table (snd (mutate m w)))).
Proof.
  intros H.
  specialize (H (by_updatePickupState admin "P" assigned)
                (world_of (pickup_P None queued))).
  assert (Hbefore : Forall volunteer_iff_claimed
                      (Pickup_table (world_of (pickup_P None queued)))).
  { repeat constructor. }
  apply H in Hbefore. inversion Hbefore as [|p l Hp _]; subst.
  destruct Hp as [Hp _]. simpl in Hp. specialize (Hp eq_refl). discriminate.
Qed.

(** C4 (amended): each mutation of the driver page (acceptJob,
    markCollected, markDelivered) preserves, for every pickup of the
    table, the invariant that [volunteer_id] is absent if and only if
    the state is [queued]. *)
Theorem driver_mutations_keep_volunteer_invariant
    (m : PickupMutation) (w : World) :
  of_driver_page m = true ->
  Forall volunteer_iff_claimed (Pickup_table w) ->
  Forall volunteer_iff_claimed (Pickup_table (snd (mutate m w))).
Proof.
  intros Hm Hw.
  destruct (mutate_rows m w) as [[_ ->] | [_ ->]]; [|assumption].
  apply Forall_map. revert Hw. apply Forall_impl.
  intros p. now apply row_effect_keeps_invariant.
Qed.

Lemma driver_mutations_keep_volunteer_invariant_witness :
  Forall volunteer_iff_claimed
    (Pickup_table
       (snd (mutate (by_acceptJob driverA "P")
                    (world_of (pickup_P None queued))))).
Proof.
  apply driver_mutations_keep_volunteer_invariant.
  - reflexivity.
  - simpl. constructor; [|constructor].
    unfold volunteer_iff_claimed; simpl. split; reflexivity.
Defined.

(* ================================================================== *)
(** ** C5: forward-only transitions                                    *)
(* ================================================================== *)

(** C5, as stated, fails: the dashboard's [updatePickupState] sets any
    of the four states, so a delivered pickup can be put back to
    [queued]. *)
Lemma admin_override_moves_state_backward :
  ~ (forall (m : PickupMutation) (w : World),
        each_row_stays_or_advances w (snd (mutate m w))).
Proof.
  intros H.
  specialize (H (by_updatePickupState admin "P" queued)
                (world_of (pickup_P (Some "driverA") delivered))).
  inversion H as [|p p' l l' Hp _]; subst.
  destruct Hp as [Hp | Hp]; simpl in Hp; discriminate.
Qed.

(** C5 (amended): along every sequence of driver-page mutations
    (acceptJob, markCollected, markDelivered), each single mutation
    leaves the state of every pickup where it is or moves it to the next
    state of the chain queued, assigned, collected, delivered; and
    between any two points of the sequence no pickup has moved
    backward. *)
Theorem driver_mutations_only_advance
    (ms : list PickupMutation) (w : World) :
  forallb of_driver_page ms = true ->
  Sorted each_row_stays_or_advances (history ms w) /\
  StronglySorted no_row_moves_back (history ms w).
Proof.
  revert w. induction ms as [|m ms IH]; intros w Hms; simpl.
  - split; repeat constructor.
  - simpl in Hms. apply andb_true_iff in Hms as [Hm Hms].
    destruct (IH (snd (mutate m w)) Hms) as [IH1 IH2].
    pose proof (step_advances m w Hm) as Hstep.
    destruct (history_head ms (snd (mutate m w))) as [tl Htl].
    split.
    + constructor; [assumption|]. rewrite Htl. constructor. exact Hstep.
    + constructor; [assumption|].
      rewrite Htl in IH2 |- *. inversion IH2 as [|? ? _ Hall]; subst.
      constructor.
      * now apply advance_is_no_move_back.
      * revert Hall. apply Forall_impl. intros w'.
        apply no_row_moves_back_trans. now apply advance_is_no_move_back.
Qed.

Lemma driver_mutations_only_advance_witness :
  Sorted each_row_stays_or_advances
    (history [by_acceptJob driverA "P"; by_markCollected driverA "P";
              by_markDelivered driverA "P"]
             (world_of (pickup_P None queued))) /\
  StronglySorted no_row_moves_back
    (history [by_acceptJob driverA "P"; by_markCollected driverA "P";
              by_markDelivered driverA "P"]
             (world_of (pickup_P None queued))).
Proof.
  apply driver_mutations_only_advance. reflexivity.
Defined.

(* ================================================================== *)
(** ** The write of each driver mutation to the Pickup table          *)
(* ================================================================== *)

Lemma mutate_as_conditional_write (m : PickupMutation) (w : World)
    (i : string) (expected : State) (after : Pickup -> Pickup) :
  round_trip_ok w ->
  (forall p, conditional_write i expected after p (row_effect m p)) ->
  Forall2 (conditional_write i expected after)
          (Pickup_table w) (Pickup_table (snd (mutate m w))).
Proof.
  intros Hok Hrow.
  destruct (mutate_rows m w) as [[_ ->] | [[e He] _]].
  - apply Forall2_map_self. intros p _. apply Hrow.
  - unfold round_trip_ok in Hok. congruence.
Qed.

(** X24: when the write reaches the store, the update that claim
    ([acceptJob]), [markCollected] and [markDelivered] each make to the
    Pickup table changes exactly the rows with the given id whose stored
    state is the expected one:
    [acceptJob] by a caller with id [uid] sets [state = assigned],
    [volunteer_id = uid] and [updated_at] to the caller's clock;
    [markCollected] sets [state = collected] and [updated_at];
    [markDelivered] sets [state = delivered] and [updated_at]; a row
    whose id or state differs is left exactly as it was. *)
Theorem driver_mutations_are_conditional_writes
    (c : Client) (pickupId : string) (w : World) :
  round_trip_ok w ->
  (forall uid, truthy_user_id (user c) = Some uid ->
     Forall2
       (conditional_write pickupId queued
          (fun p => mkPickup (id p) (bin_id p) (Some uid) assigned
                             (created_at p) (clock c)))
       (Pickup_table w)
       (Pickup_table (snd (DriverJobs.acceptJob c pickupId w)))) /\
  Forall2
    (conditional_write pickupId assigned
       (fun p => mkPickup (id p) (bin_id p) (volunteer_id p) collected
                          (created_at p) (clock c)))
    (Pickup_table w)
    (Pickup_table (snd (DriverJobs.markCollected c pickupId w))) /\
  Forall2
    (conditional_write pickupId collected
       (fun p => mkPickup (id p) (bin_id p) (volunteer_id p) delivered
                          (created_at p) (clock c)))
    (Pickup_table w)
    (Pickup_table (snd (DriverJobs.markDelivered c pickupId w))).
Proof.
  intros Hok. repeat split.
  - intros uid Huid.
    apply (mutate_as_conditional_write (by_acceptJob c pickupId)); trivial.
    intros p. unfold conditional_write, row_effect. rewrite Huid.
    destruct (passes_all _ p) eqn:E.
    + split; [reflexivity|]. apply passes_id_and_state in E. tauto.
    + split; [|reflexivity]. intros H. apply passes_id_and_state in H.
      congruence.
  - apply (mutate_as_conditional_write (by_markCollected c pickupId)); trivial.
    intros p. unfold conditional_write, row_effect.
    destruct (passes_all _ p) eqn:E.
    + split; [reflexivity|]. apply passes_id_and_state in E. tauto.
    + split; [|reflexivity]. intros H. apply passes_id_and_state in H.
      congruence.
  - apply (mutate_as_conditional_write (by_markDelivered c pickupId)); trivial.
    intros p. unfold conditional_write, row_effect.
    destruct (passes_all _ p) eqn:E.
    + split; [reflexivity|]. apply passes_id_and_state in E. tauto.
    + split; [|reflexivity]. intros H. apply passes_id_and_state in H.
      congruence.
Qed.

Lemma driver_mutations_are_conditional_writes_witness :
  Forall2
    (conditional_write "P" queued
       (fun p => mkPickup (id p) (bin_id p) (Some "driverA") assigned
                          (created_at p) (clock driverA)))
    (Pickup_table (world_of (pickup_P None queued)))
    (Pickup_table
       (snd (DriverJobs.acceptJob driverA "P"
               (world_of (pickup_P None queued))))) /\
  Forall2
    (conditional_write "P" assigned
       (fun p => mkPickup (id p) (bin_id p) (volunteer_id p) collected
                          (created_at p) (clock driverA)))
    (Pickup_table (world_of (pickup_P None queued)))
    (Pickup_table
       (snd (DriverJobs.markCollected driverA "P"
               (world_of (pickup_P None queued))))).
Proof.
  destruct (driver_mutations_are_conditional_writes driverA "P"
              (world_of (pickup_P None queued)) eq_refl)
    as (Haccept & Hcollected & _).
  split; [|exact Hcollected].
  apply (Haccept "driverA"). reflexivity.
Defined.

(* ================================================================== *)
(** ** Driver mutations when no round trip fails                       *)
(* ================================================================== *)

Ltac unfold_driver :=
  unfold DriverJobs.acceptJob, DriverJobs.markCollected,
    DriverJobs.markDelivered, useMutation,
    DriverJobs.acceptJob_mutationFn, DriverJobs.markCollected_mutationFn,
    DriverJobs.markDelivered_mutationFn, await, throw_if_error,
    from_Pickup_update, from_Impact_insert, next_fault.

(** [acceptJob] by an authenticated caller, with no failure: the toast
    is the success toast whether or not a row passed the filters. *)
Lemma acceptJob_runs (c : Client) (uid i : string) (w : World) :
  truthy_user_id (user c) = Some uid ->
  no_faults w ->
  DriverJobs.acceptJob c i w =
    (toast_success "Job accepted successfully!",
     mkWorld (map (row_effect (by_acceptJob c i)) (Pickup_table w))
             (Impact_table w) []).
Proof.
  intros Huid Hw. unfold_driver. unfold row_effect.
  rewrite Huid, Hw. simpl. do 2 f_equal.
Qed.

(** [markDelivered] with no failure: the impact row is appended whether
    or not a row passed the filters of the update. *)
Lemma markDelivered_runs (c : Client) (i : string) (w : World) :
  no_faults w ->
  DriverJobs.markDelivered c i w =
    (toast_success "Delivery completed! Impact recorded.",
     mkWorld (map (row_effect (by_markDelivered c i)) (Pickup_table w))
             (Impact_table w ++ [delivery_impact]) []).
Proof.
  intros Hw. unfold_driver. unfold row_effect. rewrite Hw. reflexivity.
Qed.

(** When the update of [markDelivered] fails, the mutation rejects and
    nothing is appended. *)
Lemma markDelivered_failed_update (c : Client) (i : string) (w : World)
    (e : PgError) :
  fst (next_fault w) = Some e ->
  fst (DriverJobs.markDelivered c i w) =
    toast_error "Failed to mark as delivered" /\
  Pickup_table (snd (DriverJobs.markDelivered c i w)) = Pickup_table w /\
  Impact_table (snd (DriverJobs.markDelivered c i w)) = Impact_table w.
Proof.
  unfold_driver. destruct (faults w) as [|[e'|] rest]; simpl;
    intros H; try discriminate. auto.
Qed.

(** Once a claim went through, a later claim on the same id finds no
    queued row with that id. *)
Lemma second_claim_changes_nothing (c c' : Client) (uid i : string)
    (p : Pickup) :
  truthy_user_id (user c) = Some uid ->
  row_effect (by_acceptJob c' i) (row_effect (by_acceptJob c i) p) =
  row_effect (by_acceptJob c i) p.
Proof.
  intros Huid.
  destruct (row_effect_cases (by_acceptJob c' i)
              (row_effect (by_acceptJob c i) p)) as [H | H]; [exact H|].
  destruct H as (uid' & _ & Hid & Hst & _). exfalso.
  destruct (row_effect_cases (by_acceptJob c i) p) as [E | E].
  - rewrite E in Hid, Hst. unfold row_effect in E. rewrite Huid in E.
    destruct (passes_all _ p) eqn:F.
    + rewrite <- E in Hst. discriminate Hst.
    + assert (G : passes_all [eq_id i; eq_state queued] p = true)
        by (apply passes_id_and_state; auto).
      congruence.
  - destruct E as (u & _ & _ & _ & E). rewrite E in Hst. discriminate Hst.
Qed.

(** Any number of claims on one id, one after the other with no
    failure: the rows end as the first claim left them, and every call,
    the first and the later ones alike, shows the success toast. *)
Lemma claims_in_sequence (c : Client) (uid i : string)
    (cs : list Client) (w : World) :
  truthy_user_id (user c) = Some uid ->
  Forall (fun c' => truthy_user_id (user c') <> None) cs ->
  no_faults w ->
  mutate_all (map (fun c' => by_acceptJob c' i) (c :: cs)) w =
    (map (fun _ => toast_success "Job accepted successfully!") (c :: cs),
     mkWorld (map (row_effect (by_acceptJob c i)) (Pickup_table w))
             (Impact_table w) []).
Proof.
  intros Huid Hcs Hw. simpl.
  rewrite (acceptJob_runs c uid i w Huid Hw).
  set (w1 := mkWorld _ _ _).
  assert (Hrest : mutate_all (map (fun c' => by_acceptJob c' i) cs) w1 =
                  (map (fun _ => toast_success "Job accepted successfully!") cs,
                   w1)).
  { induction Hcs as [|c' cs Hc' _ IH]; simpl; [reflexivity|].
    destruct (truthy_user_id (user c')) as [uid'|] eqn:Huid'; [|congruence].
    rewrite (acceptJob_runs c' uid' i w1 Huid' eq_refl).
    assert (Hsame : mkWorld (map (row_effect (by_acceptJob c' i))
                                 (Pickup_table w1))
                            (Impact_table w1) [] = w1).
    { unfold w1; simpl. f_equal. rewrite map_map. apply map_ext.
      intros p. now apply second_claim_changes_nothing with (uid := uid). }
    rewrite Hsame, IH. reflexivity. }
  rewrite Hrest. reflexivity.
Qed.

(* ================================================================== *)
(** ** C1, C2, C3, C6: the outcome of a write that matched no row      *)
(* ================================================================== *)

(** C1: [markDelivered] applied twice to a collected pickup.  The first
    call moves the pickup to [delivered] and appends one impact row.
    The second call finds no collected row with that id; the response
    of its update carries no error, so the function goes on to the
    insert: it shows the success toast, and the ledger holds two rows
    for one delivery. *)
Theorem markDelivered_twice_appends_twice :
  DriverJobs.markDelivered driverA "P"
    (world_of (pickup_P (Some "driverA") collected)) =
    (toast_success "Delivery completed! Impact recorded.",
     mkWorld [mkPickup "P" "bin-1" (Some "driverA") delivered 1000 5000]
             [delivery_impact] []) /\
  DriverJobs.markDelivered driverA "P"
    (mkWorld [mkPickup "P" "bin-1" (Some "driverA") delivered 1000 5000]
             [delivery_impact] []) =
    (toast_success "Delivery completed! Impact recorded.",
     mkWorld [mkPickup "P" "bin-1" (Some "driverA") delivered 1000 5000]
             [delivery_impact; delivery_impact] []).
Proof. split; reflexivity. Qed.

(** C2: [acceptJob] by driver B on a pickup already assigned to driver
    A.  The record is left as it was, and the response of the update
    carries no error: the mutation resolves and the page shows the
    success toast, not the failure one. *)
Theorem acceptJob_on_taken_pickup_reports_success :
  DriverJobs.acceptJob driverB "P"
    (world_of (pickup_P (Some "driverA") assigned)) =
    (toast_success "Job accepted successfully!",
     world_of (pickup_P (Some "driverA") assigned)).
Proof. reflexivity. Qed.

(** C3: three drivers claim the same queued pickup, the store taking
    the writes one after the other.  The pickup ends [assigned] to the
    first of them, and all three calls show the success toast. *)
Theorem three_claims_all_report_success :
  mutate_all [by_acceptJob driverA "P"; by_acceptJob driverB "P";
              by_acceptJob driverC "P"]
             (world_of (pickup_P None queued)) =
    ([toast_success "Job accepted successfully!";
      toast_success "Job accepted successfully!";
      toast_success "Job accepted successfully!"],
     mkWorld [mkPickup "P" "bin-1" (Some "driverA") assigned 1000 5000]
             [] []).
Proof. reflexivity. Qed.

(** C6: [markDelivered] on a pickup whose stored state is not
    [collected] (here it is already [delivered]).  The conditional
    update matches no row and the pickup is left as it was, but the call
    is not the single conditional write of the claim: the response of
    the update carries no error, so the function goes on to insert an
    impact row and shows the success toast.  The store has changed
    although the stored state differed.  [markCollected] and
    [acceptJob] on the same store change nothing. *)
Theorem markDelivered_writes_although_state_differs :
  DriverJobs.markDelivered driverA "P"
    (world_of (pickup_P (Some "driverA") delivered)) =
    (toast_success "Delivery completed! Impact recorded.",
     mkWorld [pickup_P (Some "driverA") delivered] [delivery_impact] []) /\
  snd (DriverJobs.markCollected driverA "P"
         (world_of (pickup_P (Some "driverA") delivered))) =
    world_of (pickup_P (Some "driverA") delivered) /\
  snd (DriverJobs.acceptJob driverA "P"
         (world_of (pickup_P (Some "driverA") delivered))) =
    world_of (pickup_P (Some "driverA") delivered).
Proof. repeat split; reflexivity. Qed.

(* ================================================================== *)
(** ** C8: the dashboard's totals                                      *)
(* ================================================================== *)

Lemma or_zero_value (x : option Z) :
  or_zero x = match x with Some v => v | None => 0 end.
Proof.
  destruct x as [v|]; simpl; [|reflexivity].
  destruct (Z.eqb_spec v 0); congruence.
Qed.

(** The left fold of the reducer from any accumulator. *)
Lemma fold_reducer (rows : list Impact) (acc : Totals) :
  fold_left AdminBackup.reducer rows acc =
  mkTotals (total_cans acc + column_sum cans rows)
           (total_revenue_pence acc + column_sum revenue_pence rows)
           (total_meals acc + column_sum meals rows).
Proof.
  revert acc. induction rows as [|r rows IH]; intros acc.
  - destruct acc; simpl. now rewrite !Z.add_0_r.
  - simpl fold_left. rewrite IH. unfold AdminBackup.reducer, column_sum.
    simpl. rewrite !or_zero_value. f_equal; lia.
Qed.

Lemma totals_are_column_sums (rows : list Impact) :
  AdminBackup.totals rows =
  mkTotals (column_sum cans rows) (column_sum revenue_pence rows)
           (column_sum meals rows).
Proof. unfold AdminBackup.totals. now rewrite fold_reducer. Qed.

Lemma column_sum_permutation (col : Impact -> option Z)
    (rows rows' : list Impact) :
  Permutation rows rows' -> column_sum col rows = column_sum col rows'.
Proof.
  unfold column_sum.
  induction 1 as [| r l l' _ IH | r r' l | l l' l'' _ IH1 _ IH2]; simpl; lia.
Qed.

Lemma impact_query_runs (w : World) :
  round_trip_ok w ->
  fst (AdminBackup.impact_queryFn w) =
  inr (AdminBackup.totals (Impact_table w)).
Proof.
  unfold round_trip_ok, AdminBackup.impact_queryFn, await,
    from_Impact_select.
  destruct (next_fault w) as [[e|] rest]; simpl; [discriminate|reflexivity].
Qed.

(** C8: when the read reaches the store, the [impact] query of the
    dashboard resolves with the element-wise sums of [cans],
    [revenue_pence] and [meals] over all rows of the ledger; with the
    zero totals when the ledger is empty; with the same totals for any
    reordering of the same rows; and the rows (10,5,1), (20,10,2) give
    cans 30, revenue_pence 15, meals 3. *)
Theorem aggregate_is_elementwise_sum (w w' : World) :
  round_trip_ok w ->
  round_trip_ok w' ->
  Permutation (Impact_table w) (Impact_table w') ->
  fst (AdminBackup.impact_queryFn w) =
    inr (mkTotals (column_sum cans (Impact_table w))
                  (column_sum revenue_pence (Impact_table w))
                  (column_sum meals (Impact_table w))) /\
  (Impact_table w = [] ->
   fst (AdminBackup.impact_queryFn w) = inr (mkTotals 0 0 0)) /\
  fst (AdminBackup.impact_queryFn w) = fst (AdminBackup.impact_queryFn w') /\
  AdminBackup.totals [mkImpact (Some 10) (Some 5) (Some 1);
                      mkImpact (Some 20) (Some 10) (Some 2)] =
    mkTotals 30 15 3.
Proof.
  intros Hw Hw' Hperm.
  rewrite (impact_query_runs w Hw), (impact_query_runs w' Hw').
  rewrite !totals_are_column_sums.
  repeat split.
  - intros ->. reflexivity.
  - now rewrite !(column_sum_permutation _ _ _ Hperm).
Qed.

Lemma aggregate_is_elementwise_sum_witness :
  fst (AdminBackup.impact_queryFn
         (mkWorld [] [mkImpact (Some 10) (Some 5) (Some 1);
                      mkImpact (Some 20) (Some 10) (Some 2)] [])) =
  fst (AdminBackup.impact_queryFn
         (mkWorld [] [mkImpact (Some 20) (Some 10) (Some 2);
                      mkImpact (Some 10) (Some 5) (Some 1)] [])).
Proof.
  apply (aggregate_is_elementwise_sum
           (mkWorld [] [mkImpact (Some 10) (Some 5) (Some 1);
                        mkImpact (Some 20) (Some 10) (Some 2)] [])
           (mkWorld [] [mkImpact (Some 20) (Some 10) (Some 2);
                        mkImpact (Some 10) (Some 5) (Some 1)] [])).
  - reflexivity.
  - reflexivity.
  - simpl. apply perm_swap.
Defined.

(* ================================================================== *)
(** ** C7: the two impact queries of the dashboards                    *)
(* ================================================================== *)

(** On a ledger of exactly one row the two queries read the same
    numbers. *)
Lemma impact_queries_on_one_row (r : Impact) (w : World) :
  round_trip_ok w ->
  Impact_table w = [r] ->
  fst (AdminNew.impact_queryFn w) = inr (Some r) /\
  fst (AdminBackup.impact_queryFn w) =
    inr (mkTotals (or_zero (cans r)) (or_zero (revenue_pence r))
                  (or_zero (meals r))).
Proof.
  intros Hw Hr. rewrite (impact_query_runs w Hw), Hr. split; [|reflexivity].
  unfold round_trip_ok in Hw.
  unfold AdminNew.impact_queryFn, await, from_Impact_select_single.
  destruct (next_fault w) as [[e|] rest]; simpl in *; [discriminate|].
  now rewrite Hr.
Qed.

(** C7: on the ledger (10,5,1), (20,10,2) the full scan of index_backup
    resolves with the sums 30, 15, 3, while the [.single()] read of
    index_new rejects, its result not being exactly one row; on the
    empty ledger the full scan resolves with the zero totals and the
    single read rejects as well. *)
Theorem single_read_fails_where_full_scan_sums :
  (fst (AdminBackup.impact_queryFn
          (mkWorld [] [mkImpact (Some 10) (Some 5) (Some 1);
                       mkImpact (Some 20) (Some 10) (Some 2)] [])) =
     inr (mkTotals 30 15 3) /\
   fst (AdminNew.impact_queryFn
          (mkWorld [] [mkImpact (Some 10) (Some 5) (Some 1);
                       mkImpact (Some 20) (Some 10) (Some 2)] [])) =
     inl (thrown_pg (pg_error "PGRST116"))) /\
  (fst (AdminBackup.impact_queryFn (mkWorld [] [] [])) =
     inr (mkTotals 0 0 0) /\
   fst (AdminNew.impact_queryFn (mkWorld [] [] [])) =
     inl (thrown_pg (pg_error "PGRST116"))).
Proof. repeat split; reflexivity. Qed.

(* ================================================================== *)
(** ** C9: the job board queries                                       *)
(* ================================================================== *)

Section Ordering.

Lemma insert_by_created_at_perm (p : Pickup) (l : list Pickup) :
  Permutation (p :: l) (insert_by_created_at p l).
Proof.
  induction l as [|q l IH]; simpl; [reflexivity|].
  destruct (created_at p <=? created_at q); [reflexivity|].
  rewrite perm_swap. now apply perm_skip.
Qed.

Lemma insert_by_created_at_sorted (p : Pickup) (l : list Pickup) :
  StronglySorted oldest_first l ->
  StronglySorted oldest_first (insert_by_created_at p l).
Proof.
  induction 1 as [|q l Hl IH Hq]; simpl.
  - repeat constructor.
  - destruct (Z.leb_spec (created_at p) (created_at q)) as [Hpq | Hqp].
    + constructor; [now constructor|].
      constructor; [exact Hpq|].
      revert Hq. apply Forall_impl. unfold oldest_first. intros; lia.
    + constructor; [exact IH|].
      apply (Permutation_Forall (insert_by_created_at_perm p l)).
      constructor; [unfold oldest_first; lia | exact Hq].
Qed.

Lemma order_created_at_ascending_perm (l : list Pickup) :
  Permutation (order_created_at_ascending l) l.
Proof.
  induction l as [|p l IH]; simpl; [reflexivity|].
  rewrite <- insert_by_created_at_perm. now apply perm_skip.
Qed.

Lemma order_created_at_ascending_sorted (l : list Pickup) :
  StronglySorted oldest_first (order_created_at_ascending l).
Proof.
  induction l as [|p l IH]; simpl; [constructor|].
  now apply insert_by_created_at_sorted.
Qed.

End Ordering.

Lemma available_filter (p : Pickup) :
  passes_all [eq_state queued] p = is_available p.
Proof. unfold passes_all, is_available; simpl. apply andb_true_r. Qed.

Lemma mine_filter (uid : string) (p : Pickup) :
  passes_all [eq_volunteer_id uid; in_state [assigned; collected]] p =
  is_mine uid p.
Proof.
  unfold passes_all, is_mine; simpl.
  now rewrite andb_true_r, orb_false_r.
Qed.

Lemma is_mine_spec (uid : string) (p : Pickup) :
  is_mine uid p = true <->
  volunteer_id p = Some uid /\ (state p = assigned \/ state p = collected).
Proof.
  unfold is_mine. rewrite andb_true_iff, orb_true_iff, !State_eqb_eq.
  destruct (volunteer_id p) as [v|].
  - rewrite String.eqb_eq. split; intros [H1 H2]; split; congruence.
  - split; intros [H1 H2]; discriminate.
Qed.

(** The select behind both queries, when it reaches the store. *)
Lemma select_runs (fs : list PickupFilter) (w : World) :
  round_trip_ok w ->
  from_Pickup_select_ascending fs w =
    (inr (mkResponse
            (Some (order_created_at_ascending
                     (filter (passes_all fs) (Pickup_table w))))
            None),
     mkWorld (Pickup_table w) (Impact_table w) (snd (next_fault w))).
Proof.
  unfold round_trip_ok, from_Pickup_select_ascending.
  destruct (next_fault w) as [[e|] rest]; simpl; [discriminate|reflexivity].
Qed.

(** C9: when the read reaches the store, [availableJobs] resolves with
    exactly the pickups whose state is [queued], oldest [created_at]
    first, and [myJobs] of a caller with id [uid] resolves with exactly
    the pickups whose [volunteer_id] is [uid] and whose state is
    [assigned] or [collected], oldest first: no delivered or queued
    pickup and no pickup of another volunteer is in it.  Neither query
    changes a row of either table. *)
Theorem job_board_views (c : Client) (uid : string) (w : World) :
  round_trip_ok w ->
  truthy_user_id (user c) = Some uid ->
  (exists available w',
      DriverJobs.availableJobs_queryFn w = (inr (Some available), w') /\
      Pickup_table w' = Pickup_table w /\
      Impact_table w' = Impact_table w /\
      Permutation available (filter is_available (Pickup_table w)) /\
      StronglySorted oldest_first available) /\
  (exists mine w',
      DriverJobs.myJobs_queryFn c w = (inr (Some mine), w') /\
      Pickup_table w' = Pickup_table w /\
      Impact_table w' = Impact_table w /\
      Permutation mine (filter (is_mine uid) (Pickup_table w)) /\
      StronglySorted oldest_first mine /\
      (forall p, In p mine <->
                 In p (Pickup_table w) /\ volunteer_id p = Some uid /\
                 (state p = assigned \/ state p = collected))).
Proof.
  intros Hw Huid. split.
  - unfold DriverJobs.availableJobs_queryFn, await.
    rewrite (select_runs _ w Hw). simpl.
    eexists; eexists. split; [reflexivity|]. simpl.
    split; [reflexivity|]. split; [reflexivity|]. split.
    + rewrite order_created_at_ascending_perm.
      now rewrite (filter_ext _ _ available_filter).
    + apply order_created_at_ascending_sorted.
  - unfold DriverJobs.myJobs_queryFn, await. rewrite Huid.
    rewrite (select_runs _ w Hw). simpl.
    eexists; eexists. split; [reflexivity|]. simpl.
    split; [reflexivity|]. split; [reflexivity|].
    assert (Hperm : Permutation
                      (order_created_at_ascending
                         (filter (passes_all
                                    [eq_volunteer_id uid;
                                     in_state [assigned; collected]])
                                 (Pickup_table w)))
                      (filter (is_mine uid) (Pickup_table w))).
    { rewrite order_created_at_ascending_perm.
      now rewrite (filter_ext _ _ (mine_filter uid)). }
    split; [exact Hperm|].
    split; [apply order_created_at_ascending_sorted|].
    intros p. split.
    + intros Hin. apply (Permutation_in _ Hperm) in Hin.
      apply filter_In in Hin. destruct Hin as [Hin Hp].
      apply is_mine_spec in Hp. tauto.
    + intros (Hin & Hv & Hs).
      apply (Permutation_in _ (Permutation_sym Hperm)).
      apply filter_In. split; [exact Hin|]. apply is_mine_spec. tauto.
Qed.

Lemma job_board_views_witness :
  exists mine w',
    DriverJobs.myJobs_queryFn driverA
      (mkWorld [mkPickup "c" "bin-3" (Some "driverA") collected 30 31;
                mkPickup "q" "bin-4" None queued 5 5;
                mkPickup "b" "bin-2" (Some "driverB") assigned 20 21;
                mkPickup "d" "bin-5" (Some "driverA") delivered 1 9;
                mkPickup "a" "bin-1" (Some "driverA") assigned 10 11]
               [] []) = (inr (Some mine), w') /\
    mine = [mkPickup "a" "bin-1" (Some "driverA") assigned 10 11;
            mkPickup "c" "bin-3" (Some "driverA") collected 30 31].
Proof.
  destruct (job_board_views driverA "driverA"
              (mkWorld [mkPickup "c" "bin-3" (Some "driverA") collected 30 31;
                        mkPickup "q" "bin-4" None queued 5 5;
                        mkPickup "b" "bin-2" (Some "driverB") assigned 20 21;
                        mkPickup "d" "bin-5" (Some "driverA") delivered 1 9;
                        mkPickup "a" "bin-1" (Some "driverA") assigned 10 11]
                       [] []) eq_refl eq_refl)
    as [_ (mine & w' & Hrun & _)].
  exists mine, w'. split; [exact Hrun|].
  simpl in Hrun. injection Hrun as Hmine _. now symmetry.
Defined.

(* ================================================================== *)
(** ** C10: markCollected and markDelivered do not look at the caller  *)
(* ================================================================== *)

Lemma markCollected_runs (c : Client) (i : string) (w : World) :
  no_faults w ->
  DriverJobs.markCollected c i w =
    (toast_success "Marked as collected!",
     mkWorld (map (row_effect (by_markCollected c i)) (Pickup_table w))
             (Impact_table w) []).
Proof.
  intros Hw. unfold_driver. unfold row_effect. rewrite Hw. reflexivity.
Qed.

(** The only way [markCollected] and [markDelivered] reject is with the
    error object of a failed round trip. *)
Lemma collected_and_delivered_reject_only_on_faults
    (c : Client) (i : string) (w : World) (t : Thrown) :
  fst (DriverJobs.markCollected_mutationFn c i w) = inl t \/
  fst (DriverJobs.markDelivered_mutationFn c i w) = inl t ->
  exists e, In (Some e) (faults w) /\ t = thrown_pg e.
Proof.
  unfold_driver.
  destruct (faults w) as [|[e|] [|[e'|] rest]]; simpl;
    intros [H | H]; try discriminate;
    injection H as <-; eexists; split; try reflexivity; simpl; auto.
Qed.

(** C10: [markCollected] and [markDelivered] run the same for any two
    callers (whoever is logged in, or nobody); with no failing round
    trip they show the success toast, and every pickup with the given
    id in the precondition state makes the transition whatever its
    [volunteer_id] is.  The only rejections are the store's errors. *)
Theorem collected_and_delivered_ignore_the_caller
    (c c' : Client) (i : string) (w : World) :
  clock c = clock c' ->
  no_faults w ->
  DriverJobs.markCollected c i w = DriverJobs.markCollected c' i w /\
  DriverJobs.markDelivered c i w = DriverJobs.markDelivered c' i w /\
  fst (DriverJobs.markCollected c i w) =
    toast_success "Marked as collected!" /\
  fst (DriverJobs.markDelivered c i w) =
    toast_success "Delivery completed! Impact recorded." /\
  (forall p, In p (Pickup_table w) -> id p = i -> state p = assigned ->
     In (mkPickup (id p) (bin_id p) (volunteer_id p) collected
                  (created_at p) (clock c))
        (Pickup_table (snd (DriverJobs.markCollected c i w)))) /\
  (forall p, In p (Pickup_table w) -> id p = i -> state p = collected ->
     In (mkPickup (id p) (bin_id p) (volunteer_id p) delivered
                  (created_at p) (clock c))
        (Pickup_table (snd (DriverJobs.markDelivered c i w)))).
Proof.
  intros Hclock Hw.
  split; [unfold_driver; now rewrite Hclock|].
  split; [unfold_driver; now rewrite Hclock|].
  rewrite (markCollected_runs c i w Hw), (markDelivered_runs c i w Hw).
  simpl. split; [reflexivity|]. split; [reflexivity|].
  split; intros p Hin Hid Hst; apply in_map_iff; exists p;
    (split; [|exact Hin]); unfold row_effect;
    match goal with |- context [passes_all ?fs p] =>
      assert (E : passes_all fs p = true)
        by (apply passes_id_and_state; auto)
    end; now rewrite E.
Qed.

Lemma collected_and_delivered_ignore_the_caller_witness :
  DriverJobs.markCollected driverB "P"
    (world_of (pickup_P (Some "driverA") assigned)) =
  DriverJobs.markCollected (mkClient None 6000) "P"
    (world_of (pickup_P (Some "driverA") assigned)) /\
  In (mkPickup "P" "bin-1" (Some "driverA") collected 1000 6000)
     (Pickup_table
        (snd (DriverJobs.markCollected driverB "P"
                (world_of (pickup_P (Some "driverA") assigned))))).
Proof.
  destruct (collected_and_delivered_ignore_the_caller
              driverB (mkClient None 6000) "P"
              (world_of (pickup_P (Some "driverA") assigned))
              eq_refl eq_refl)
    as (Hsame & _ & _ & _ & Hrow & _).
  split; [exact Hsame|].
  apply (Hrow (pickup_P (Some "driverA") assigned)).
  - simpl. now left.
  - reflexivity.
  - reflexivity.
Defined.

(* ================================================================== *)
(** ** Further properties of the driver page                           *)
(* ================================================================== *)

Lemma no_faults_round_trip_ok (w : World) : no_faults w -> round_trip_ok w.
Proof. unfold no_faults, round_trip_ok, next_fault. now intros ->. Qed.

Lemma no_faults_rest (w : World) : no_faults w -> snd (next_fault w) = [].
Proof. unfold no_faults, next_fault. now intros ->. Qed.

(** What each driver mutation does to a row, as a test on the row. *)
Lemma row_effect_acceptJob (c : Client) (uid i : string) (p : Pickup) :
  truthy_user_id (user c) = Some uid ->
  row_effect (by_acceptJob c i) p =
    if (String.eqb (id p) i && State_eqb (state p) queued)%bool
    then mkPickup (id p) (bin_id p) (Some uid) assigned
                  (created_at p) (clock c)
    else p.
Proof.
  intros Huid. unfold row_effect, passes_all. rewrite Huid. simpl.
  now rewrite andb_true_r.
Qed.

Lemma row_effect_markCollected (c : Client) (i : string) (p : Pickup) :
  row_effect (by_markCollected c i) p =
    if (String.eqb (id p) i && State_eqb (state p) assigned)%bool
    then moved_to collected (clock c) p
    else p.
Proof.
  unfold row_effect, passes_all. simpl. now rewrite andb_true_r.
Qed.

Lemma row_effect_markDelivered (c : Client) (i : string) (p : Pickup) :
  row_effect (by_markDelivered c i) p =
    if (String.eqb (id p) i && State_eqb (state p) collected)%bool
    then moved_to delivered (clock c) p
    else p.
Proof.
  unfold row_effect, passes_all. simpl. now rewrite andb_true_r.
Qed.

Lemma order_created_at_ascending_In (l : list Pickup) (p : Pickup) :
  In p (order_created_at_ascending l) <-> In p l.
Proof.
  split; apply Permutation_in;
    [|apply Permutation_sym]; apply order_created_at_ascending_perm.
Qed.

Lemma availableJobs_runs (w : World) :
  round_trip_ok w ->
  DriverJobs.availableJobs_queryFn w =
    (inr (Some (order_created_at_ascending
                  (filter is_available (Pickup_table w)))),
     mkWorld (Pickup_table w) (Impact_table w) (snd (next_fault w))).
Proof.
  intros Hw. unfold DriverJobs.availableJobs_queryFn, await.
  rewrite (select_runs _ w Hw). simpl.
  now rewrite (filter_ext _ _ available_filter).
Qed.

Lemma myJobs_runs (c : Client) (uid : string) (w : World) :
  truthy_user_id (user c) = Some uid ->
  round_trip_ok w ->
  DriverJobs.myJobs_queryFn c w =
    (inr (Some (order_created_at_ascending
                  (filter (is_mine uid) (Pickup_table w)))),
     mkWorld (Pickup_table w) (Impact_table w) (snd (next_fault w))).
Proof.
  intros Huid Hw. unfold DriverJobs.myJobs_queryFn, await. rewrite Huid.
  rewrite (select_runs _ w Hw). simpl.
  now rewrite (filter_ext _ _ (mine_filter uid)).
Qed.

(** X1: a driver accepts a job that the store lists as queued, and no
    round trip fails.  Read again, the list of available jobs has no job
    with that id any more, and the driver's own list has the job,
    assigned to the driver and stamped with the driver's clock. *)
Theorem accepted_job_moves_to_my_jobs
    (c : Client) (uid i : string) (w : World) (p : Pickup) :
  truthy_user_id (user c) = Some uid ->
  no_faults w ->
  In p (Pickup_table w) ->
  id p = i ->
  state p = queued ->
  exists available mine wa wm,
    DriverJobs.availableJobs_queryFn (snd (DriverJobs.acceptJob c i w)) =
      (inr (Some available), wa) /\
    DriverJobs.myJobs_queryFn c (snd (DriverJobs.acceptJob c i w)) =
      (inr (Some mine), wm) /\
    (forall q, In q available -> id q <> i) /\
    In (mkPickup (id p) (bin_id p) (Some uid) assigned
                 (created_at p) (clock c)) mine.
Proof.
  intros Huid Hw Hin Hid Hst.
  rewrite (acceptJob_runs c uid i w Huid Hw). simpl.
  set (w1 := mkWorld _ _ _).
  assert (Hw1 : round_trip_ok w1) by reflexivity.
  rewrite (availableJobs_runs w1 Hw1), (myJobs_runs c uid w1 Huid Hw1).
  do 4 eexists. split; [reflexivity|]. split; [reflexivity|]. split.
  - intros q Hq. apply (proj1 (order_created_at_ascending_In _ _)) in Hq.
    apply filter_In in Hq as [Hq Hav]. unfold w1 in Hq; simpl in Hq.
    apply in_map_iff in Hq as (p0 & <- & _).
    unfold is_available in Hav. apply State_eqb_eq in Hav.
    rewrite (row_effect_acceptJob c uid i p0 Huid) in *.
    destruct (String.eqb (id p0) i) eqn:Ei; simpl in *.
    + destruct (State_eqb (state p0) queued) eqn:Es; simpl in *.
      * discriminate Hav.
      * apply State_eqb_neq in Es. contradiction.
    + now apply String.eqb_neq in Ei.
  - apply order_created_at_ascending_In. apply filter_In. split.
    + unfold w1; simpl. apply in_map_iff. exists p. split; [|exact Hin].
      rewrite (row_effect_acceptJob c uid i p Huid).
      apply String.eqb_eq in Hid. rewrite Hid, Hst. reflexivity.
    + apply is_mine_spec. simpl. auto.
Qed.

Lemma accepted_job_moves_to_my_jobs_witness :
  exists available mine wa wm,
    DriverJobs.availableJobs_queryFn
      (snd (DriverJobs.acceptJob driverA "P"
              (world_of (pickup_P None queued)))) =
      (inr (Some available), wa) /\
    DriverJobs.myJobs_queryFn driverA
      (snd (DriverJobs.acceptJob driverA "P"
              (world_of (pickup_P None queued)))) =
      (inr (Some mine), wm) /\
    (forall q, In q available -> id q <> "P") /\
    In (mkPickup "P" "bin-1" (Some "driverA") assigned 1000 5000) mine.
Proof.
  apply (accepted_job_moves_to_my_jobs driverA "driverA" "P"
           (world_of (pickup_P None queued)) (pickup_P None queued)).
  - reflexivity.
  - reflexivity.
  - simpl. now left.
  - reflexivity.
  - reflexivity.
Defined.

(** X2: the whole life of a job when no round trip fails: accepted by
    an authenticated driver, then marked collected, then marked
    delivered (by whichever callers).  All three calls show their
    success toast, the job ends [delivered] with the accepting driver as
    volunteer, the ledger has grown by exactly the one fixed impact row,
    and the dashboard totals have grown by 200 cans, 160 pence and 10
    meals. *)
Theorem job_lifecycle_records_one_impact
    (c1 c2 c3 : Client) (uid i : string) (w : World) (p : Pickup) :
  truthy_user_id (user c1) = Some uid ->
  no_faults w ->
  In p (Pickup_table w) ->
  id p = i ->
  state p = queued ->
  exists w3,
    mutate_all [by_acceptJob c1 i; by_markCollected c2 i;
                by_markDelivered c3 i] w =
      ([toast_success "Job accepted successfully!";
        toast_success "Marked as collected!";
        toast_success "Delivery completed! Impact recorded."], w3) /\
    In (mkPickup (id p) (bin_id p) (Some uid) delivered
                 (created_at p) (clock c3))
       (Pickup_table w3) /\
    Impact_table w3 = (Impact_table w ++ [delivery_impact])%list /\
    AdminBackup.totals (Impact_table w3) =
      mkTotals
        (total_cans (AdminBackup.totals (Impact_table w)) + 200)
        (total_revenue_pence (AdminBackup.totals (Impact_table w)) + 160)
        (total_meals (AdminBackup.totals (Impact_table w)) + 10).
Proof.
  intros Huid Hw Hin Hid Hst. unfold mutate_all, mutate.
  rewrite (acceptJob_runs c1 uid i w Huid Hw).
  set (w1 := mkWorld _ _ _).
  rewrite (markCollected_runs c2 i w1 eq_refl).
  set (w2 := mkWorld _ _ _).
  rewrite (markDelivered_runs c3 i w2 eq_refl).
  eexists. split; [reflexivity|].
  cbn [Pickup_table Impact_table w1 w2]. split; [|split].
  - rewrite !map_map. apply in_map_iff. exists p. split; [|exact Hin].
    apply String.eqb_eq in Hid.
    rewrite (row_effect_acceptJob c1 uid i p Huid), Hid, Hst.
    cbn [andb State_eqb].
    rewrite row_effect_markCollected. cbn [id state]. rewrite Hid.
    cbn [andb State_eqb].
    rewrite row_effect_markDelivered. unfold moved_to.
    cbn [id state bin_id volunteer_id created_at updated_at].
    rewrite Hid. reflexivity.
  - reflexivity.
  - unfold AdminBackup.totals. rewrite fold_left_app. reflexivity.
Qed.

Lemma job_lifecycle_records_one_impact_witness :
  exists w3,
    mutate_all [by_acceptJob driverA "P"; by_markCollected driverB "P";
                by_markDelivered driverC "P"]
               (world_of (pickup_P None queued)) =
      ([toast_success "Job accepted successfully!";
        toast_success "Marked as collected!";
        toast_success "Delivery completed! Impact recorded."], w3) /\
    In (mkPickup "P" "bin-1" (Some "driverA") delivered 1000 7000)
       (Pickup_table w3) /\
    Impact_table w3 = [delivery_impact].
Proof.
  destruct (job_lifecycle_records_one_impact driverA driverB driverC
              "driverA" "P" (world_of (pickup_P None queued))
              (pickup_P None queued) eq_refl eq_refl
              (or_introl eq_refl) eq_refl eq_refl)
    as (w3 & Hrun & Hrow & Himp & _).
  exists w3. auto.
Defined.

(** Once a delivery went through, a later one on the same id finds no
    collected row with that id. *)
Lemma second_delivery_changes_no_row (c c' : Client) (i : string)
    (p : Pickup) :
  row_effect (by_markDelivered c' i) (row_effect (by_markDelivered c i) p) =
  row_effect (by_markDelivered c i) p.
Proof.
  rewrite (row_effect_markDelivered c i p).
  destruct (String.eqb (id p) i && State_eqb (state p) collected)%bool
    eqn:E; rewrite row_effect_markDelivered.
  - simpl. now rewrite andb_false_r.
  - now rewrite E.
Qed.

(** X3: the window between the two writes of [markDelivered].  When the
    update goes through and the insert fails, the page shows the failure
    toast, the pickup is [delivered] and the ledger has no row for it.
    Calling [markDelivered] again on the same id then changes no pickup
    and appends the missing row, with the success toast. *)
Theorem failed_insert_is_made_up_by_a_retry
    (c c' : Client) (i : string) (w : World) (e : PgError) :
  faults w = [None; Some e] ->
  exists w1 w2,
    DriverJobs.markDelivered c i w =
      (toast_error "Failed to mark as delivered", w1) /\
    Pickup_table w1 = map (row_effect (by_markDelivered c i)) (Pickup_table w) /\
    Impact_table w1 = Impact_table w /\
    DriverJobs.markDelivered c' i w1 =
      (toast_success "Delivery completed! Impact recorded.", w2) /\
    Pickup_table w2 = Pickup_table w1 /\
    Impact_table w2 = (Impact_table w ++ [delivery_impact])%list.
Proof.
  intros Hf.
  assert (H1 : DriverJobs.markDelivered c i w =
               (toast_error "Failed to mark as delivered",
                mkWorld (map (row_effect (by_markDelivered c i))
                             (Pickup_table w))
                        (Impact_table w) [])).
  { unfold_driver. unfold row_effect. rewrite Hf. reflexivity. }
  rewrite H1. do 2 eexists. split; [reflexivity|]. simpl.
  split; [reflexivity|]. split; [reflexivity|].
  rewrite markDelivered_runs by reflexivity. split; [reflexivity|].
  simpl. split; [|reflexivity].
  rewrite map_map. apply map_ext. intros p.
  apply second_delivery_changes_no_row.
Qed.

Lemma failed_insert_is_made_up_by_a_retry_witness :
  exists w1 w2,
    DriverJobs.markDelivered driverA "P"
      (mkWorld [pickup_P (Some "driverA") collected] []
               [None; Some (pg_error "503")]) =
      (toast_error "Failed to mark as delivered", w1) /\
    Impact_table w1 = [] /\
    DriverJobs.markDelivered driverA "P" w1 =
      (toast_success "Delivery completed! Impact recorded.", w2) /\
    Pickup_table w2 = Pickup_table w1 /\
    Impact_table w2 = [delivery_impact].
Proof.
  destruct (failed_insert_is_made_up_by_a_retry driverA driverA "P"
              (mkWorld [pickup_P (Some "driverA") collected] []
                       [None; Some (pg_error "503")])
              (pg_error "503") eq_refl)
    as (w1 & w2 & H1 & _ & H2 & H3 & H4 & H5).
  exists w1, w2. auto.
Defined.

(** X4: without an authenticated user, [acceptJob] rejects before any
    round trip: the world, fault schedule included, is untouched and the
    failure toast is shown; [myJobs] resolves with the empty list, also
    without a round trip. *)
Theorem unauthenticated_caller_reaches_no_store
    (c : Client) (i : string) (w : World) :
  truthy_user_id (user c) = None ->
  DriverJobs.acceptJob c i w =
    (toast_error
       "Failed to accept job. It may have been taken by another driver.",
     w) /\
  DriverJobs.acceptJob_mutationFn c i w =
    (inl (thrown_js "User not authenticated"), w) /\
  DriverJobs.myJobs_queryFn c w = (inr (Some []), w).
Proof.
  intros H.
  unfold DriverJobs.acceptJob, useMutation, DriverJobs.acceptJob_mutationFn,
    DriverJobs.myJobs_queryFn. rewrite H. auto.
Qed.

Lemma unauthenticated_caller_reaches_no_store_witness :
  DriverJobs.acceptJob (mkClient (Some (mkUser "")) 1) "P"
    (mkWorld [pickup_P None queued] [] [Some (pg_error "503")]) =
    (toast_error
       "Failed to accept job. It may have been taken by another driver.",
     mkWorld [pickup_P None queued] [] [Some (pg_error "503")]).
Proof.
  apply (unauthenticated_caller_reaches_no_store
           (mkClient (Some (mkUser "")) 1) "P"
           (mkWorld [pickup_P None queued] [] [Some (pg_error "503")])).
  reflexivity.
Defined.

(* ================================================================== *)
(** ** What no pickup mutation does                                    *)
(* ================================================================== *)

Ltac unfold_mutations :=
  unfold mutate, DriverJobs.acceptJob, DriverJobs.markCollected,
    DriverJobs.markDelivered, AdminBackup.updatePickupState,
    AdminNew.updatePickup, useMutation,
    DriverJobs.acceptJob_mutationFn, DriverJobs.markCollected_mutationFn,
    DriverJobs.markDelivered_mutationFn,
    AdminBackup.updatePickupState_mutationFn,
    AdminNew.updatePickup_mutationFn, await, throw_if_error, throw, resolve,
    from_Pickup_update, from_Impact_insert, next_fault.

Lemma row_effect_same_identity (m : PickupMutation) (p : Pickup) :
  same_identity p (row_effect m p).
Proof.
  unfold same_identity.
  destruct (row_effect_cases m p) as [-> | H]; [auto|].
  destruct m; [destruct H as (uid & _ & _ & _ & ->)
              | destruct H as (_ & _ & ->) | destruct H as (_ & _ & ->)
              | destruct H as (_ & ->) | destruct H as (_ & ->)];
    simpl; auto.
Qed.

Lemma row_effect_volunteer (m : PickupMutation) (p : Pickup) :
  volunteer_id (row_effect m p) = volunteer_id p \/
  (is_acceptJob m = true /\ state p = queued /\
   state (row_effect m p) = assigned).
Proof.
  destruct (row_effect_cases m p) as [-> | H]; [now left|].
  destruct m; [destruct H as (uid & _ & _ & Hs & ->)
              | destruct H as (_ & _ & ->) | destruct H as (_ & _ & ->)
              | destruct H as (_ & ->) | destruct H as (_ & ->)];
    simpl; auto.
Qed.

(** X5: no mutation of the pages, the dashboard's included, adds or
    removes a pickup or rewrites its [id], [bin_id] or [created_at]; and
    [volunteer_id] is only ever written by [acceptJob], on a row that
    was queued and becomes assigned. *)
Theorem mutations_never_rewrite_identity (m : PickupMutation) (w : World) :
  Forall2
    (fun p p' =>
       same_identity p p' /\
       (volunteer_id p' = volunteer_id p \/
        (is_acceptJob m = true /\ state p = queued /\ state p' = assigned)))
    (Pickup_table w) (Pickup_table (snd (mutate m w))).
Proof.
  destruct (mutate_rows m w) as [[_ ->] | [_ ->]].
  - apply Forall2_map_self. intros p _. split.
    + apply row_effect_same_identity.
    + apply row_effect_volunteer.
  - apply Forall2_same. intros p _. unfold same_identity. auto.
Qed.

(** The ledger after one mutation. *)
Lemma mutate_ledger (m : PickupMutation) (w : World) :
  Impact_table (snd (mutate m w)) = Impact_table w \/
  (is_markDelivered m = true /\
   Impact_table (snd (mutate m w)) =
     (Impact_table w ++ [delivery_impact])%list).
Proof.
  destruct m as [c i | c i | c i | c i s | c i s]; unfold_mutations.
  - destruct (truthy_user_id (user c)); [|now left].
    destruct (faults w) as [|[e|] rest]; now left.
  - destruct (faults w) as [|[e|] rest]; now left.
  - destruct (faults w) as [|[e|] [|[e'|] rest]]; simpl; auto.
  - destruct (faults w) as [|[e|] rest]; now left.
  - destruct (faults w) as [|[e|] rest]; now left.
Qed.

Lemma mutate_all_cons (m : PickupMutation) (ms : list PickupMutation)
    (w : World) :
  snd (mutate_all (m :: ms) w) = snd (mutate_all ms (snd (mutate m w))).
Proof.
  simpl. destruct (mutate m w) as [t w']. simpl.
  now destruct (mutate_all ms w').
Qed.

(** X6: the ledger is append-only.  Whatever sequence of pickup
    mutations runs, and whichever round trips fail, the rows of the
    ledger stay where they were, every row added is the fixed impact
    of one delivery (200 cans, 160 pence, 10 meals), and at most one row
    is added per call of [markDelivered]. *)
Theorem impact_ledger_is_append_only
    (ms : list PickupMutation) (w : World) :
  exists added,
    Impact_table (snd (mutate_all ms w)) = (Impact_table w ++ added)%list /\
    Forall (eq delivery_impact) added /\
    (List.length added <= List.length (filter is_markDelivered ms))%nat.
Proof.
  revert w. induction ms as [|m ms IH]; intros w.
  - exists []. simpl. rewrite app_nil_r. auto.
  - rewrite mutate_all_cons.
    destruct (IH (snd (mutate m w))) as (added & Heq & Hall & Hlen).
    rewrite Heq.
    destruct (mutate_ledger m w) as [-> | [Hm ->]].
    + exists added. split; [reflexivity|]. split; [exact Hall|].
      simpl. destruct (is_markDelivered m); simpl; lia.
    + exists (delivery_impact :: added). rewrite <- app_assoc.
      split; [reflexivity|]. split; [now constructor|].
      simpl. rewrite Hm. simpl. lia.
Qed.

(** X7: a mutation whose first round trip fails is reported and leaves
    nothing behind: the page shows the failure toast and both tables are
    as they were. *)
Theorem failed_round_trip_is_reported
    (m : PickupMutation) (w : World) (e : PgError) :
  fst (next_fault w) = Some e ->
  (exists message, fst (mutate m w) = toast_error message) /\
  Pickup_table (snd (mutate m w)) = Pickup_table w /\
  Impact_table (snd (mutate m w)) = Impact_table w.
Proof.
  destruct m as [c i | c i | c i | c i s | c i s]; unfold_mutations;
    try destruct (truthy_user_id (user c));
    destruct (faults w) as [|[e'|] rest]; simpl; intros H;
    try discriminate; eauto.
Qed.

Lemma failed_round_trip_is_reported_witness :
  (exists message,
      fst (mutate (by_markDelivered driverA "P")
             (mkWorld [pickup_P (Some "driverA") collected] []
                      [Some (pg_error "503")])) = toast_error message) /\
  Pickup_table
    (snd (mutate (by_markDelivered driverA "P")
            (mkWorld [pickup_P (Some "driverA") collected] []
                     [Some (pg_error "503")]))) =
    [pickup_P (Some "driverA") collected] /\
  Impact_table
    (snd (mutate (by_markDelivered driverA "P")
            (mkWorld [pickup_P (Some "driverA") collected] []
                     [Some (pg_error "503")]))) = [].
Proof.
  apply (failed_round_trip_is_reported (by_markDelivered driverA "P")
           (mkWorld [pickup_P (Some "driverA") collected] []
                    [Some (pg_error "503")])
           (pg_error "503")).
  reflexivity.
Defined.

(** X8: the driver page over freshly read lists, with no failing round
    trip.  Every card of "My Active Jobs" carries exactly one button;
    and every button on the page, pressed by the same user, shows a
    success toast and moves the job of its card to the next state of
    the chain: the job's row keeps its id, bin and creation time and
    gets the time of the press as [updated_at]. *)
Theorem every_button_advances_its_job
    (c c' : Client) (uid : string) (w w1 w2 : World)
    (mine available : list Pickup) :
  truthy_user_id (user c) = Some uid ->
  user c' = user c ->
  no_faults w ->
  DriverJobs.myJobs_queryFn c w = (inr (Some mine), w1) ->
  DriverJobs.availableJobs_queryFn w1 = (inr (Some available), w2) ->
  (forall job, In job mine ->
     exists b, DriverJobsPage.myJob_buttons job = [b]) /\
  (forall b, In b (DriverJobsPage.buttons false c mine available) ->
     exists job s' job',
       (In job mine \/ In job available) /\
       next_state (state job) = Some s' /\
       (exists message,
           fst (DriverJobsPage.onClick c' b w2) = toast_success message) /\
       In job' (Pickup_table (snd (DriverJobsPage.onClick c' b w2))) /\
       same_identity job job' /\
       state job' = s' /\
       updated_at job' = clock c').
Proof.
  intros Huid Hsame Hw Hmine Havail.
  rewrite (myJobs_runs c uid w Huid (no_faults_round_trip_ok w Hw)) in Hmine.
  rewrite (no_faults_rest w Hw) in Hmine. injection Hmine as <- <-.
  rewrite availableJobs_runs in Havail by reflexivity.
  cbn [Pickup_table Impact_table] in Havail. injection Havail as <- <-.
  assert (Hcard : forall job,
             In job (order_created_at_ascending
                       (filter (is_mine uid) (Pickup_table w))) ->
             In job (Pickup_table w) /\
             (state job = assigned \/ state job = collected)).
  { intros job Hjob.
    apply (proj1 (order_created_at_ascending_In _ _)) in Hjob.
    apply filter_In in Hjob as [Hin Hm].
    apply is_mine_spec in Hm. tauto. }
  split.
  - intros job Hjob. destruct (Hcard job Hjob) as [_ [Hs | Hs]];
      unfold DriverJobsPage.myJob_buttons; rewrite Hs; simpl; eauto.
  - intros b Hb. unfold DriverJobsPage.buttons in Hb.
    assert (Huser : exists u, user c = Some u).
    { unfold truthy_user_id in Huid. destruct (user c); [eauto|discriminate]. }
    destruct Huser as [u Hu]. rewrite Hu in Hb.
    apply in_app_or in Hb as [Hb | Hb]; apply in_flat_map in Hb
      as (job & Hjob & Hb).
    + destruct (Hcard job Hjob) as [Hin [Hs | Hs]];
        unfold DriverJobsPage.myJob_buttons in Hb; rewrite Hs in Hb;
        simpl in Hb; destruct Hb as [<- | []].
      * exists job, collected, (moved_to collected (clock c') job).
        split; [now left|]. split; [now rewrite Hs|].
        unfold DriverJobsPage.onClick.
        rewrite markCollected_runs by reflexivity.
        split; [eexists; reflexivity|]. cbn [snd Pickup_table].
        split; [|unfold same_identity; simpl; auto].
        apply in_map_iff. exists job. split; [|exact Hin].
        rewrite row_effect_markCollected, String.eqb_refl, Hs. reflexivity.
      * exists job, delivered, (moved_to delivered (clock c') job).
        split; [now left|]. split; [now rewrite Hs|].
        unfold DriverJobsPage.onClick.
        rewrite markDelivered_runs by reflexivity.
        split; [eexists; reflexivity|]. cbn [snd Pickup_table].
        split; [|unfold same_identity; simpl; auto].
        apply in_map_iff. exists job. split; [|exact Hin].
        rewrite row_effect_markDelivered, String.eqb_refl, Hs. reflexivity.
    + pose proof Hjob as Hav.
      apply (proj1 (order_created_at_ascending_In _ _)) in Hav.
      apply filter_In in Hav as [Hin Hq].
      unfold is_available in Hq. apply State_eqb_eq in Hq.
      destruct Hb as [<- | []].
      assert (Huid' : truthy_user_id (user c') = Some uid)
        by now rewrite Hsame.
      exists job, assigned,
        (mkPickup (id job) (bin_id job) (Some uid) assigned
                  (created_at job) (clock c')).
      split; [now right|]. split; [now rewrite Hq|].
      unfold DriverJobsPage.onClick.
      rewrite (acceptJob_runs c' uid (id job)
                 (mkWorld (Pickup_table w) (Impact_table w) []) Huid' eq_refl).
      split; [eexists; reflexivity|]. cbn [snd Pickup_table].
      split; [|unfold same_identity; simpl; auto].
      apply in_map_iff. exists job. split; [|exact Hin].
      rewrite (row_effect_acceptJob c' uid _ job Huid'), String.eqb_refl, Hq.
      reflexivity.
Qed.

Lemma every_button_advances_its_job_witness :
  exists job s' job',
    (In job [pickup_P (Some "driverA") collected] \/ In job []) /\
    next_state (state job) = Some s' /\
    (exists message,
        fst (DriverJobsPage.onClick (mkClient (Some (mkUser "driverA")) 9000)
               (button_markDelivered "P")
               (world_of (pickup_P (Some "driverA") collected))) =
        toast_success message) /\
    In job'
       (Pickup_table
          (snd (DriverJobsPage.onClick
                  (mkClient (Some (mkUser "driverA")) 9000)
                  (button_markDelivered "P")
                  (world_of (pickup_P (Some "driverA") collected))))) /\
    same_identity job job' /\
    state job' = s' /\
    updated_at job' = 9000.
Proof.
  destruct (every_button_advances_its_job driverA
              (mkClient (Some (mkUser "driverA")) 9000) "driverA"
              (world_of (pickup_P (Some "driverA") collected))
              (world_of (pickup_P (Some "driverA") collected))
              (world_of (pickup_P (Some "driverA") collected))
              [pickup_P (Some "driverA") collected] []
              eq_refl eq_refl eq_refl eq_refl eq_refl)
    as [_ Hpress].
  apply (Hpress (button_markDelivered "P")).
  simpl. now left.
Defined.

(* ================================================================== *)
(** ** The pickups board of the dashboard                              *)
(* ================================================================== *)

Section Board.

Lemma insert_by_created_at_descending_perm (p : Pickup) (l : list Pickup) :
  Permutation (p :: l) (insert_by_created_at_descending p l).
Proof.
  induction l as [|q l IH]; simpl; [reflexivity|].
  destruct (created_at q <=? created_at p); [reflexivity|].
  rewrite perm_swap. now apply perm_skip.
Qed.

Lemma insert_by_created_at_descending_sorted (p : Pickup) (l : list Pickup) :
  StronglySorted newest_first l ->
  StronglySorted newest_first (insert_by_created_at_descending p l).
Proof.
  induction 1 as [|q l Hl IH Hq]; simpl.
  - repeat constructor.
  - destruct (Z.leb_spec (created_at q) (created_at p)) as [Hqp | Hpq].
    + constructor; [now constructor|].
      constructor; [exact Hqp|].
      revert Hq. apply Forall_impl. unfold newest_first. intros; lia.
    + constructor; [exact IH|].
      apply (Permutation_Forall (insert_by_created_at_descending_perm p l)).
      constructor; [unfold newest_first; lia | exact Hq].
Qed.

Lemma order_created_at_descending_perm (l : list Pickup) :
  Permutation (order_created_at_descending l) l.
Proof.
  induction l as [|p l IH]; simpl; [reflexivity|].
  rewrite <- insert_by_created_at_descending_perm. now apply perm_skip.
Qed.

Lemma order_created_at_descending_sorted (l : list Pickup) :
  StronglySorted newest_first (order_created_at_descending l).
Proof.
  induction l as [|p l IH]; simpl; [constructor|].
  now apply insert_by_created_at_descending_sorted.
Qed.

Lemma filter_keeps_order {A} (R : A -> A -> Prop) (f : A -> bool)
    (l : list A) :
  StronglySorted R l -> StronglySorted R (filter f l).
Proof.
  induction 1 as [|x l Hl IH Hx]; simpl; [constructor|].
  destruct (f x); [|exact IH].
  constructor; [exact IH|].
  apply Forall_forall. intros y Hy. apply filter_In in Hy as [Hy _].
  revert y Hy. now apply Forall_forall.
Qed.

(** The four filters of [pickupsByState] split any list of pickups. *)
Lemma columns_split (l : list Pickup) :
  Permutation
    (List.concat (map snd
       (AdminBackupBoard.columns (AdminBackupBoard.pickupsByState l))))
    l.
Proof.
  unfold AdminBackupBoard.columns, AdminBackupBoard.pickupsByState. simpl.
  rewrite app_nil_r.
  induction l as [|p l IH]; simpl; [reflexivity|].
  destruct (state p); simpl.
  - now apply perm_skip.
  - rewrite <- Permutation_middle. now apply perm_skip.
  - rewrite app_assoc, <- Permutation_middle, <- app_assoc.
    now apply perm_skip.
  - rewrite !app_assoc, <- Permutation_middle, <- !app_assoc.
    now apply perm_skip.
Qed.

Lemma column_of_state (s : State) (l table : list Pickup) :
  StronglySorted newest_first l ->
  Permutation l table ->
  StronglySorted newest_first
    (snd (s, filter (fun p => State_eqb (state p) s) l)) /\
  (forall p,
      In p (snd (s, filter (fun p => State_eqb (state p) s) l)) <->
      In p table /\ state p = fst (s, filter (fun p => State_eqb (state p) s) l)).
Proof.
  intros Hsort Hperm. simpl. split; [now apply filter_keeps_order|].
  intros p. rewrite filter_In, State_eqb_eq.
  split; intros [Hin Hs]; (split; [|exact Hs]).
  - now apply (Permutation_in _ Hperm).
  - now apply (Permutation_in _ (Permutation_sym Hperm)).
Qed.

End Board.

(** X9: when the read reaches the store, the [pickups] query of the
    dashboard resolves with all pickups, newest [created_at] first, and
    the four columns of the board split them: taken together the columns
    hold every pickup exactly once, each column holds exactly the
    pickups of its state, and each column is newest first. *)
Theorem pickups_board_partitions_the_pickups (w : World) :
  round_trip_ok w ->
  exists pickups w',
    AdminBackupBoard.pickups_queryFn w = (inr (Some pickups), w') /\
    Pickup_table w' = Pickup_table w /\
    Permutation pickups (Pickup_table w) /\
    StronglySorted newest_first pickups /\
    Permutation
      (List.concat (map snd
         (AdminBackupBoard.columns
            (AdminBackupBoard.pickupsByState pickups))))
      (Pickup_table w) /\
    Forall
      (fun col =>
         StronglySorted newest_first (snd col) /\
         forall p, In p (snd col) <->
                   In p (Pickup_table w) /\ state p = fst col)
      (AdminBackupBoard.columns (AdminBackupBoard.pickupsByState pickups)).
Proof.
  intros Hw. unfold round_trip_ok in Hw.
  unfold AdminBackupBoard.pickups_queryFn, await,
    from_Pickup_select_descending.
  destruct (next_fault w) as [[e|] rest]; simpl in Hw; [discriminate|].
  simpl. do 2 eexists. split; [reflexivity|]. simpl.
  split; [reflexivity|].
  pose proof (order_created_at_descending_perm (Pickup_table w)) as Hperm.
  pose proof (order_created_at_descending_sorted (Pickup_table w)) as Hsort.
  split; [exact Hperm|]. split; [exact Hsort|]. split.
  - apply (Permutation_trans (columns_split _) Hperm).
  - unfold AdminBackupBoard.columns, AdminBackupBoard.pickupsByState.
    simpl.
    repeat (apply Forall_cons;
            [now apply (column_of_state _ _ _ Hsort Hperm)|]).
    apply Forall_nil.
Qed.

Lemma pickups_board_partitions_the_pickups_witness :
  exists pickups w',
    AdminBackupBoard.pickups_queryFn
      (mkWorld [mkPickup "a" "bin-1" (Some "driverA") assigned 10 11;
                mkPickup "q" "bin-4" None queued 50 50;
                mkPickup "d" "bin-5" (Some "driverA") delivered 1 9;
                mkPickup "b" "bin-2" (Some "driverB") assigned 20 21]
               [] []) = (inr (Some pickups), w') /\
    assigned_pickups (AdminBackupBoard.pickupsByState pickups) =
      [mkPickup "b" "bin-2" (Some "driverB") assigned 20 21;
       mkPickup "a" "bin-1" (Some "driverA") assigned 10 11].
Proof.
  destruct (pickups_board_partitions_the_pickups
              (mkWorld [mkPickup "a" "bin-1" (Some "driverA") assigned 10 11;
                        mkPickup "q" "bin-4" None queued 50 50;
                        mkPickup "d" "bin-5" (Some "driverA") delivered 1 9;
                        mkPickup "b" "bin-2" (Some "driverB") assigned 20 21]
                       [] []) eq_refl)
    as (pickups & w' & Hrun & _).
  exists pickups, w'. split; [exact Hrun|].
  simpl in Hrun. injection Hrun as Hp _. now rewrite <- Hp.
Defined.

(* ================================================================== *)
(** ** Class names, report URLs and file names                         *)
(* ================================================================== *)

Section Strings.

Lemma append_empty_r (s : string) : s ++ "" = s.
Proof. induction s as [|ch s IH]; simpl; congruence. Qed.

Lemma append_is_empty (s t : string) : s ++ t = "" -> s = "" /\ t = "".
Proof. destruct s; simpl; [auto | discriminate]. Qed.

Lemma length_append (s t : string) :
  String.length (s ++ t) = (String.length s + String.length t)%nat.
Proof. induction s as [|ch s IH]; simpl; congruence. Qed.

Lemma append_cancel_l (s a b : string) : s ++ a = s ++ b -> a = b.
Proof. induction s as [|ch s IH]; simpl; intros H; [|injection H]; auto. Qed.

Lemma append_cancel_r (t a b : string) : a ++ t = b ++ t -> a = b.
Proof.
  intros H.
  assert (Hlen : String.length a = String.length b).
  { apply (f_equal String.length) in H. rewrite !length_append in H. lia. }
  revert b H Hlen.
  induction a as [|ch a IH]; intros [|ch' b] H Hlen;
    simpl in Hlen; try discriminate; [reflexivity|].
  simpl in H. injection H as -> H. f_equal. apply IH; [exact H|lia].
Qed.

Lemma append_associative (s t u : string) : (s ++ t) ++ u = s ++ t ++ u.
Proof. induction s as [|ch s IH]; simpl; congruence. Qed.

(** Joining the non-empty parts of two lists. *)
Lemma concat_app (sep : string) (a b : list string) :
  a <> [] -> b <> [] ->
  String.concat sep (a ++ b) =
  String.concat sep a ++ sep ++ String.concat sep b.
Proof.
  intros Ha Hb. induction a as [|x a IH]; [contradiction|].
  destruct a as [|y a].
  - simpl. destruct b; [contradiction|reflexivity].
  - change (String.concat sep ((x :: y :: a) ++ b))
      with (x ++ sep ++ String.concat sep ((y :: a) ++ b)).
    rewrite IH by discriminate.
    change (String.concat sep (x :: y :: a))
      with (x ++ sep ++ String.concat sep (y :: a)).
    now rewrite !append_associative.
Qed.

Lemma concat_nonempty (sep : string) (a : list string) :
  a <> [] -> Forall (fun s => s <> "") a -> String.concat sep a <> "".
Proof.
  intros Ha Hall. destruct a as [|x a]; [contradiction|].
  inversion Hall as [|? ? Hx _]; subst.
  destruct a; simpl; [exact Hx|].
  intros H. apply append_is_empty in H. tauto.
Qed.

Lemma filter_Boolean_nonempty (l : list string) :
  Forall (fun s => s <> "") (filter Boolean_string l).
Proof.
  apply Forall_forall. intros s Hs. apply filter_In in Hs as [_ Hs].
  unfold Boolean_string in Hs. apply negb_true_iff in Hs.
  now apply String.eqb_neq.
Qed.

Lemma classNames_empty (l : list string) :
  classNames l = "" <-> filter Boolean_string l = [].
Proof.
  unfold classNames. split.
  - intros H. destruct (filter Boolean_string l) eqn:E; [reflexivity|].
    exfalso. revert H. apply concat_nonempty; [discriminate|].
    rewrite <- E. apply filter_Boolean_nonempty.
  - now intros ->.
Qed.

Lemma classNames_two (s t : string) :
  classNames [s; t] =
    if String.eqb s "" then t
    else if String.eqb t "" then s
    else s ++ " " ++ t.
Proof.
  unfold classNames, Boolean_string. simpl filter.
  destruct (String.eqb_spec s "") as [-> | Hs];
    destruct (String.eqb_spec t "") as [-> | Ht]; reflexivity.
Qed.

End Strings.

(** X10: [classNames] can be nested: joining two groups of classes
    that were each joined by [classNames] gives the same string as
    joining all the classes at once; and the result is the empty string
    exactly when every class given is empty, so [classNames] never
    yields a stray separator. *)
Theorem classNames_nests (l1 l2 : list string) :
  classNames (l1 ++ l2) = classNames [classNames l1; classNames l2] /\
  (classNames l1 = "" <-> Forall (eq "") l1).
Proof.
  split.
  - rewrite classNames_two.
    assert (Hall : classNames (l1 ++ l2) =
                   String.concat " " (filter Boolean_string l1 ++
                                      filter Boolean_string l2))
      by (unfold classNames; now rewrite filter_app).
    rewrite Hall.
    destruct (String.eqb_spec (classNames l1) "") as [E1 | N1].
    + apply classNames_empty in E1. now rewrite E1.
    + destruct (String.eqb_spec (classNames l2) "") as [E2 | N2].
      * apply classNames_empty in E2. now rewrite E2, app_nil_r.
      * rewrite classNames_empty in N1, N2.
        now rewrite concat_app.
  - rewrite classNames_empty. split.
    + intros H. apply Forall_forall. intros s Hs.
      destruct (String.eqb_spec s "") as [-> | Hne]; [reflexivity|].
      assert (Hin : In s (filter Boolean_string l1)).
      { apply filter_In. split; [exact Hs|].
        unfold Boolean_string. now apply negb_true_iff, String.eqb_neq. }
      rewrite H in Hin. destruct Hin.
    + intros H. induction H as [|s l Hs _ IH]; [reflexivity|].
      simpl. subst s. exact IH.
Qed.

(** X11: report URLs tell bins apart: on one origin (or on the
    placeholder domain), two bins have the same report URL only when
    they have the same id. *)
Theorem getReportUrl_injective
    (origin : option string) (binId1 binId2 : string) :
  getReportUrl origin binId1 = getReportUrl origin binId2 ->
  binId1 = binId2.
Proof.
  unfold getReportUrl. destruct origin as [o|]; intros H.
  - apply append_cancel_l in H. apply append_cancel_l in H.
    now apply append_cancel_r in H.
  - apply (append_cancel_l "https://your-domain.com/bins/") in H.
    now apply append_cancel_r in H.
Qed.

Lemma getReportUrl_injective_witness :
  "bin-7" = "bin-7".
Proof.
  apply (getReportUrl_injective (Some "http://localhost:3000")).
  reflexivity.
Defined.

Lemma replace_non_alphanumeric_safe (s : string) :
  Forall file_name_safe (list_ascii_of_string (replace_non_alphanumeric s)).
Proof.
  induction s as [|ch s IH]; simpl; constructor; [|exact IH].
  unfold file_name_safe. destruct (is_alphanumeric ch) eqn:E; auto.
Qed.

Lemma replace_non_alphanumeric_fixed (s : string) :
  Forall (fun ch => is_alphanumeric ch = true) (list_ascii_of_string s) ->
  replace_non_alphanumeric s = s.
Proof.
  induction s as [|ch s IH]; simpl; intros H; [reflexivity|].
  inversion H as [|? ? Hch Hs]; subst. now rewrite Hch, IH.
Qed.

(** X12: whenever [downloadQR] downloads a file, the QR element was in
    the document and the file is named [bin-<binId>-qr-<name>.png],
    where [<name>] has the length of the partner's name, consists of
    letters, digits and underscores only, is the partner's name itself
    when that already holds of the name, and is not changed by being
    cleaned again. *)
Theorem downloadQR_file_name_is_safe
    (svg_found image_loaded has_context : bool)
    (binId partnerName fileName : string) :
  downloadQR svg_found image_loaded has_context binId partnerName =
    Some fileName ->
  svg_found = true /\
  exists cleaned,
    fileName = "bin-" ++ binId ++ "-qr-" ++ cleaned ++ ".png" /\
    String.length cleaned = String.length partnerName /\
    Forall file_name_safe (list_ascii_of_string cleaned) /\
    (Forall (fun ch => is_alphanumeric ch = true)
            (list_ascii_of_string partnerName) ->
     cleaned = partnerName) /\
    replace_non_alphanumeric cleaned = cleaned.
Proof.
  unfold downloadQR, qr_file_name.
  destruct svg_found, image_loaded, has_context; try discriminate.
  intros H. injection H as <-. split; [reflexivity|].
  exists (replace_non_alphanumeric partnerName).
  split; [reflexivity|]. split; [|split; [|split]].
  - induction partnerName as [|ch s IH]; simpl; congruence.
  - apply replace_non_alphanumeric_safe.
  - apply replace_non_alphanumeric_fixed.
  - induction partnerName as [|ch s IH]; simpl; [reflexivity|].
    rewrite IH. f_equal.
    destruct (is_alphanumeric ch) eqn:E; [now rewrite E|reflexivity].
Qed.

Lemma downloadQR_file_name_is_safe_witness :
  exists cleaned,
    "bin-7-qr-Joe_s_Caf_.png" = "bin-" ++ "7" ++ "-qr-" ++ cleaned ++ ".png" /\
    String.length cleaned = String.length "Joe's Caf%" /\
    Forall file_name_safe (list_ascii_of_string cleaned).
Proof.
  destruct (downloadQR_file_name_is_safe true true true "7" "Joe's Caf%"
              "bin-7-qr-Joe_s_Caf_.png" eq_refl)
    as (_ & cleaned & H1 & H2 & H3 & _).
  exists cleaned. auto.
Defined.

(* ================================================================== *)
(** ** The registry: round trips and ordering                          *)
(* ================================================================== *)

Lemma registry_round_trip_ok {A} (r : Registry) (d : option A)
    (partners : list Partner.row) (bins : list Bin.row) :
  fst (next_registry_fault r) = None ->
  registry_round_trip r d partners bins =
    (mkResponse d None,
     mkRegistry partners bins (snd (next_registry_fault r))).
Proof.
  unfold registry_round_trip.
  destruct (next_registry_fault r) as [[e|] rest]; simpl;
    [discriminate|reflexivity].
Qed.

Lemma registry_round_trip_failed {A} (r : Registry) (d : option A)
    (partners : list Partner.row) (bins : list Bin.row) (e : PgError) :
  fst (next_registry_fault r) = Some e ->
  registry_round_trip r d partners bins =
    (mkResponse None (Some e),
     mkRegistry (Partner_table r) (Bin_table r)
                (snd (next_registry_fault r))).
Proof.
  unfold registry_round_trip.
  destruct (next_registry_fault r) as [[e'|] rest]; simpl;
    intros H; [injection H as ->; reflexivity | discriminate].
Qed.

Lemma registry_no_faults_next (r : Registry) :
  registry_no_faults r -> next_registry_fault r = (None, []).
Proof. unfold registry_no_faults, next_registry_fault. now intros ->. Qed.

Section OrderedBy.

Variable A : Type.
Variable before : A -> A -> bool.
Variable R : A -> A -> Prop.
Hypothesis before_sound : forall x y, before x y = true -> R x y.
Hypothesis before_total : forall x y, before x y = false -> R y x.
Hypothesis R_trans : forall x y z, R x y -> R y z -> R x z.

Lemma insert_ordered_perm (x : A) (l : list A) :
  Permutation (x :: l) (insert_ordered before x l).
Proof.
  induction l as [|y l IH]; simpl; [reflexivity|].
  destruct (before x y); [reflexivity|].
  rewrite perm_swap. now apply perm_skip.
Qed.

Lemma ordered_perm (l : list A) : Permutation (ordered before l) l.
Proof.
  induction l as [|x l IH]; simpl; [reflexivity|].
  rewrite <- insert_ordered_perm. now apply perm_skip.
Qed.

Lemma insert_ordered_sorted (x : A) (l : list A) :
  StronglySorted R l -> StronglySorted R (insert_ordered before x l).
Proof.
  induction 1 as [|y l Hl IH Hy]; simpl.
  - repeat constructor.
  - destruct (before x y) eqn:E.
    + constructor; [now constructor|].
      constructor; [now apply before_sound|].
      revert Hy. apply Forall_impl. intros z. apply R_trans.
      now apply before_sound.
    + constructor; [exact IH|].
      apply (Permutation_Forall (insert_ordered_perm x l)).
      constructor; [now apply before_total | exact Hy].
Qed.

Lemma ordered_sorted (l : list A) : StronglySorted R (ordered before l).
Proof.
  induction l as [|x l IH]; simpl; [constructor|].
  now apply insert_ordered_sorted.
Qed.

End OrderedBy.

Lemma bins_ordered_sorted (l : list Bin.row) :
  StronglySorted emptied_no_later
    (ordered (fun b c => nulls_first_ascending (Bin.last_emptied_at b)
                                               (Bin.last_emptied_at c)) l).
Proof.
  apply ordered_sorted; unfold emptied_no_later, nulls_first_ascending.
  - intros x y. destruct (Bin.last_emptied_at x), (Bin.last_emptied_at y);
      try discriminate; auto. intros H. now apply Z.leb_le.
  - intros x y. destruct (Bin.last_emptied_at x), (Bin.last_emptied_at y);
      try discriminate; auto. intros H. apply Z.leb_gt in H. lia.
  - intros x y z.
    destruct (Bin.last_emptied_at x), (Bin.last_emptied_at y),
      (Bin.last_emptied_at z); auto; try tauto. lia.
Qed.

Lemma partners_ordered_sorted (l : list Partner.row) :
  StronglySorted applied_no_earlier
    (ordered (fun p q => Partner.created_at q <=? Partner.created_at p) l).
Proof.
  apply ordered_sorted; unfold applied_no_earlier.
  - intros x y H. now apply Z.leb_le.
  - intros x y H. apply Z.leb_gt in H. lia.
  - intros x y z. lia.
Qed.

Lemma Partner_Status_eqb_eq (a b : Partner.Status) :
  Partner.Status_eqb a b = true <-> a = b.
Proof. destruct a, b; simpl; split; congruence. Qed.

Lemma Bin_Status_eqb_eq (a b : Bin.Status) :
  Bin.Status_eqb a b = true <-> a = b.
Proof. destruct a, b; simpl; split; congruence. Qed.

Lemma pendingPartners_runs (r : Registry) :
  fst (next_registry_fault r) = None ->
  pendingPartners_queryFn r =
    (inr (Some (ordered
                  (fun p q => Partner.created_at q <=? Partner.created_at p)
                  (filter (fun p => Partner.Status_eqb (Partner.status p)
                                                       Partner.pending)
                          (Partner_table r)))),
     mkRegistry (Partner_table r) (Bin_table r)
                (snd (next_registry_fault r))).
Proof.
  intros H. unfold pendingPartners_queryFn, settled,
    from_Partner_select_pending.
  now rewrite (registry_round_trip_ok _ _ _ _ H).
Qed.

Lemma In_pending_list (l : list Partner.row) (p : Partner.row) :
  In p (ordered (fun p q => Partner.created_at q <=? Partner.created_at p)
          (filter (fun p => Partner.Status_eqb (Partner.status p)
                                               Partner.pending) l)) <->
  In p l /\ Partner.status p = Partner.pending.
Proof.
  transitivity
    (In p (filter (fun p => Partner.Status_eqb (Partner.status p)
                                               Partner.pending) l)).
  - split; apply Permutation_in; [|apply Permutation_sym];
      apply ordered_perm.
  - rewrite filter_In. now rewrite Partner_Status_eqb_eq.
Qed.

(** X13: the list of pending partners.  When the read reaches the
    store, the dashboard lists exactly the partners whose status is
    [pending], the latest application first, and reads without changing
    a row. *)
Theorem pending_partners_are_listed_newest_first (r : Registry) :
  fst (next_registry_fault r) = None ->
  exists listed r',
    pendingPartners_queryFn r = (inr (Some listed), r') /\
    Partner_table r' = Partner_table r /\
    Bin_table r' = Bin_table r /\
    Permutation listed
      (filter (fun p => Partner.Status_eqb (Partner.status p) Partner.pending)
              (Partner_table r)) /\
    StronglySorted applied_no_earlier listed /\
    (forall p, In p listed <->
               In p (Partner_table r) /\ Partner.status p = Partner.pending).
Proof.
  intros H. rewrite (pendingPartners_runs r H).
  do 2 eexists. split; [reflexivity|]. simpl.
  split; [reflexivity|]. split; [reflexivity|]. split; [|split].
  - apply ordered_perm.
  - apply partners_ordered_sorted.
  - apply In_pending_list.
Qed.

Lemma pending_partners_are_listed_newest_first_witness :
  exists listed r',
    pendingPartners_queryFn
      (mkRegistry
         [Partner.mk "p1" "Cafe" "1 High Street, London"
                     (QArith_base.Qmake 515 10) (QArith_base.Qmake (-1) 10)
                     Partner.pending 100;
          Partner.mk "p2" "Shop" "2 High Street, London"
                     (QArith_base.Qmake 515 10) (QArith_base.Qmake (-1) 10)
                     Partner.approved 200;
          Partner.mk "p3" "Pub" "3 High Street, London"
                     (QArith_base.Qmake 515 10) (QArith_base.Qmake (-1) 10)
                     Partner.pending 300]
         [] []) = (inr (Some listed), r') /\
    map Partner.id listed = ["p3"; "p1"].
Proof.
  destruct (pending_partners_are_listed_newest_first
              (mkRegistry
                 [Partner.mk "p1" "Cafe" "1 High Street, London"
                             (QArith_base.Qmake 515 10)
                             (QArith_base.Qmake (-1) 10)
                             Partner.pending 100;
                  Partner.mk "p2" "Shop" "2 High Street, London"
                             (QArith_base.Qmake 515 10)
                             (QArith_base.Qmake (-1) 10)
                             Partner.approved 200;
                  Partner.mk "p3" "Pub" "3 High Street, London"
                             (QArith_base.Qmake 515 10)
                             (QArith_base.Qmake (-1) 10)
                             Partner.pending 300]
                 [] []) eq_refl)
    as (listed & r' & Hrun & _).
  exists listed, r'. split; [exact Hrun|].
  simpl in Hrun. injection Hrun as Hl _. now rewrite <- Hl.
Defined.

Lemma update_status_runs (s : Partner.Status) (i : string) (r : Registry) :
  registry_no_faults r ->
  AdminBackupPartners.updatePartnerStatus i s r =
    (toast_success "Partner status updated",
     mkRegistry
       (map (fun p =>
               if String.eqb (Partner.id p) i
               then Partner.mk (Partner.id p) (Partner.name p)
                               (Partner.address p) (Partner.lat p)
                               (Partner.lng p) s (Partner.created_at p)
               else p)
            (Partner_table r))
       (Bin_table r) []).
Proof.
  intros H. unfold AdminBackupPartners.updatePartnerStatus, toasted,
    AdminBackupPartners.updatePartnerStatus_mutationFn, settled,
    from_Partner_update_status, registry_round_trip.
  now rewrite (registry_no_faults_next r H).
Qed.

(** X14: the two buttons of a pending partner's row, when no round trip
    fails.  After "Approve" (or [approvePartner] of the other dashboard,
    which leaves the same store) no partner with that id is on the list
    of pending partners.  "Reject" writes the status [pending]: the
    partner's row is left exactly as it was and is still on the list of
    pending partners; both buttons show the same success toast. *)
Theorem approve_removes_and_reject_keeps (p : Partner.row) (r : Registry) :
  registry_no_faults r ->
  In p (Partner_table r) ->
  Partner.status p = Partner.pending ->
  (fst (AdminBackupPartners.Approve p r) =
     toast_success "Partner status updated" /\
   snd (AdminNewPartners.approvePartner (Partner.id p) r) =
     snd (AdminBackupPartners.Approve p r) /\
   exists listed r',
     pendingPartners_queryFn (snd (AdminBackupPartners.Approve p r)) =
       (inr (Some listed), r') /\
     forall q, In q listed -> Partner.id q <> Partner.id p) /\
  (fst (AdminBackupPartners.Reject p r) =
     toast_success "Partner status updated" /\
   In p (Partner_table (snd (AdminBackupPartners.Reject p r))) /\
   exists listed r',
     pendingPartners_queryFn (snd (AdminBackupPartners.Reject p r)) =
       (inr (Some listed), r') /\
     In p listed).
Proof.
  intros Hr Hin Hp.
  unfold AdminBackupPartners.Approve, AdminBackupPartners.Reject.
  rewrite !(update_status_runs _ _ r Hr). simpl fst. simpl snd.
  split; (split; [reflexivity|]).
  - split.
    { unfold AdminNewPartners.approvePartner, toasted, settled,
        from_Partner_update_status, registry_round_trip.
      now rewrite (registry_no_faults_next r Hr). }
    rewrite pendingPartners_runs by reflexivity.
    do 2 eexists. split; [reflexivity|].
    intros q Hq. apply In_pending_list in Hq as [Hq Hs].
    simpl in Hq. apply in_map_iff in Hq as (q0 & <- & _).
    destruct (String.eqb_spec (Partner.id q0) (Partner.id p)) as [E | N].
    + simpl in Hs. discriminate Hs.
    + exact N.
  - assert (Hkept : In p (map (fun q =>
                if String.eqb (Partner.id q) (Partner.id p)
                then Partner.mk (Partner.id q) (Partner.name q)
                       (Partner.address q) (Partner.lat q) (Partner.lng q)
                       Partner.pending (Partner.created_at q)
                else q) (Partner_table r))).
    { apply in_map_iff. exists p. split; [|exact Hin].
      rewrite String.eqb_refl. destruct p; simpl in *. now subst. }
    split; [exact Hkept|].
    rewrite pendingPartners_runs by reflexivity.
    do 2 eexists. split; [reflexivity|].
    apply In_pending_list. simpl. auto.
Qed.

Lemma approve_removes_and_reject_keeps_witness :
  In (Partner.mk "p1" "Cafe" "1 High Street, London"
                 (QArith_base.Qmake 515 10) (QArith_base.Qmake (-1) 10)
                 Partner.pending 100)
     (Partner_table
        (snd (AdminBackupPartners.Reject
                (Partner.mk "p1" "Cafe" "1 High Street, London"
                            (QArith_base.Qmake 515 10)
                            (QArith_base.Qmake (-1) 10)
                            Partner.pending 100)
                (mkRegistry
                   [Partner.mk "p1" "Cafe" "1 High Street, London"
                               (QArith_base.Qmake 515 10)
                               (QArith_base.Qmake (-1) 10)
                               Partner.pending 100]
                   [] [])))).
Proof.
  apply (approve_removes_and_reject_keeps
           (Partner.mk "p1" "Cafe" "1 High Street, London"
                       (QArith_base.Qmake 515 10) (QArith_base.Qmake (-1) 10)
                       Partner.pending 100)
           (mkRegistry
              [Partner.mk "p1" "Cafe" "1 High Street, London"
                          (QArith_base.Qmake 515 10)
                          (QArith_base.Qmake (-1) 10)
                          Partner.pending 100]
              [] [])).
  - reflexivity.
  - simpl. now left.
  - reflexivity.
Defined.

Lemma partner_of_spec (partners : list Partner.row) (b : Bin.row)
    (p : Partner.row) :
  partner_of partners b = Some p ->
  In p partners /\ Bin.partner_id b = Some (Partner.id p).
Proof.
  unfold partner_of. destruct (Bin.partner_id b) as [pid|]; [|discriminate].
  intros H. apply find_some in H as [Hin Hid].
  apply String.eqb_eq in Hid. split; [exact Hin | now rewrite Hid].
Qed.

Lemma partner_of_none (partners : list Partner.row) (b : Bin.row) :
  partner_of partners b = None ->
  forall p, In p partners -> Bin.partner_id b <> Some (Partner.id p).
Proof.
  unfold partner_of. destruct (Bin.partner_id b) as [pid|]; [|discriminate].
  intros H p Hin Heq. injection Heq as ->.
  apply (find_none _ _ H) in Hin. now rewrite String.eqb_refl in Hin.
Qed.

(** X15: the bins table of the dashboard.  When the read reaches the
    store, the dashboard lists every bin once, the bins that were never
    emptied first and the others by increasing [last_emptied_at]; each
    bin comes with a partner of the table that its [partner_id] names,
    or with none when no partner has that id; no row is changed. *)
Theorem bins_are_listed_never_emptied_first (r : Registry) :
  fst (next_registry_fault r) = None ->
  exists listed r',
    bins_queryFn r = (inr (Some listed), r') /\
    Partner_table r' = Partner_table r /\
    Bin_table r' = Bin_table r /\
    Permutation (map fst listed) (Bin_table r) /\
    StronglySorted emptied_no_later (map fst listed) /\
    Forall
      (fun entry =>
         match snd entry with
         | Some p =>
             In p (Partner_table r) /\
             Bin.partner_id (fst entry) = Some (Partner.id p)
         | None =>
             forall p, In p (Partner_table r) ->
                       Bin.partner_id (fst entry) <> Some (Partner.id p)
         end)
      listed.
Proof.
  intros H. unfold bins_queryFn, settled, from_Bin_select_with_Partner.
  rewrite (registry_round_trip_ok _ _ _ _ H). simpl.
  do 2 eexists. split; [reflexivity|]. simpl.
  split; [reflexivity|]. split; [reflexivity|].
  rewrite map_map. simpl. rewrite map_id.
  split; [apply ordered_perm|]. split; [apply bins_ordered_sorted|].
  apply Forall_forall. intros [b o] Hin.
  apply in_map_iff in Hin as (b0 & Heq & _). injection Heq as -> <-.
  simpl. destruct (partner_of (Partner_table r) b) as [p|] eqn:E.
  - now apply partner_of_spec.
  - now apply partner_of_none.
Qed.

Lemma bins_are_listed_never_emptied_first_witness :
  exists listed r',
    bins_queryFn
      (mkRegistry []
         [Bin.mk "b1" None (QArith_base.Qmake 0 1) (QArith_base.Qmake 0 1)
                 Bin.full (Some 30);
          Bin.mk "b2" None (QArith_base.Qmake 0 1) (QArith_base.Qmake 0 1)
                 Bin.empty None;
          Bin.mk "b3" None (QArith_base.Qmake 0 1) (QArith_base.Qmake 0 1)
                 Bin.empty (Some 10)]
         []) = (inr (Some listed), r') /\
    map (fun entry => Bin.id (fst entry)) listed = ["b2"; "b3"; "b1"].
Proof.
  destruct (bins_are_listed_never_emptied_first
              (mkRegistry []
                 [Bin.mk "b1" None (QArith_base.Qmake 0 1)
                         (QArith_base.Qmake 0 1) Bin.full (Some 30);
                  Bin.mk "b2" None (QArith_base.Qmake 0 1)
                         (QArith_base.Qmake 0 1) Bin.empty None;
                  Bin.mk "b3" None (QArith_base.Qmake 0 1)
                         (QArith_base.Qmake 0 1) Bin.empty (Some 10)]
                 []) eq_refl)
    as (listed & r' & Hrun & _).
  exists listed, r'. split; [exact Hrun|].
  simpl in Hrun. injection Hrun as Hl _. now rewrite <- Hl.
Defined.

(* ================================================================== *)
(** ** The report page and the map                                     *)
(* ================================================================== *)

Lemma report_runs (s : string) (v : BinReport.View) (r : Registry) :
  s <> "" ->
  fst (next_registry_fault r) = None ->
  BinReport.reportBinFull (param_string s) v r =
    (BinReport.mkView BinReport.status_success (BinReport.error_text v),
     mkRegistry (Partner_table r)
       (map (fun b => if String.eqb (Bin.id b) s
                      then Bin.mk (Bin.id b) (Bin.partner_id b) (Bin.lat b)
                                  (Bin.lng b) Bin.full (Bin.last_emptied_at b)
                      else b)
            (Bin_table r))
       (snd (next_registry_fault r))).
Proof.
  intros Hs Hr. unfold BinReport.reportBinFull.
  apply String.eqb_neq in Hs. rewrite Hs.
  unfold from_Bin_update. rewrite (registry_round_trip_ok _ _ _ _ Hr).
  reflexivity.
Qed.

(** X16: a report with a non-empty id, when the round trip does not
    fail.  The page thanks the visitor; every bin with that id is now
    [full] and is otherwise as it was, every other bin and every partner
    is untouched.  When no bin has the id, nothing has changed and the
    page thanks the visitor all the same.  Reporting once more changes
    nothing further. *)
Theorem report_marks_the_bin_full
    (s : string) (v : BinReport.View) (r : Registry) :
  s <> "" ->
  registry_no_faults r ->
  BinReport.heading (fst (BinReport.useEffect true (param_string s) v r)) =
    "Thank You!" /\
  Partner_table (snd (BinReport.useEffect true (param_string s) v r)) =
    Partner_table r /\
  Forall2
    (fun b b' =>
       (Bin.id b = s ->
        b' = Bin.mk (Bin.id b) (Bin.partner_id b) (Bin.lat b) (Bin.lng b)
                    Bin.full (Bin.last_emptied_at b)) /\
       (Bin.id b <> s -> b' = b))
    (Bin_table r)
    (Bin_table (snd (BinReport.useEffect true (param_string s) v r))) /\
  ((forall b, In b (Bin_table r) -> Bin.id b <> s) ->
   Bin_table (snd (BinReport.useEffect true (param_string s) v r)) =
     Bin_table r) /\
  Bin_table
    (snd (BinReport.useEffect true (param_string s) v
            (snd (BinReport.useEffect true (param_string s) v r)))) =
    Bin_table (snd (BinReport.useEffect true (param_string s) v r)).
Proof.
  intros Hs Hr. unfold BinReport.useEffect.
  pose proof (registry_no_faults_next r Hr) as Hnext.
  rewrite (report_runs s v r Hs) by now rewrite Hnext.
  rewrite Hnext. cbn [fst snd].
  rewrite (report_runs s v _ Hs) by reflexivity.
  cbn [fst snd Partner_table Bin_table].
  split; [reflexivity|]. split; [reflexivity|]. split; [|split].
  - clear. induction (Bin_table r) as [|b l IH]; simpl; constructor; auto.
    destruct (String.eqb_spec (Bin.id b) s); split; intros; congruence.
  - intros Hnone. rewrite <- (map_id (Bin_table r)) at 2.
    apply map_ext_in. intros b Hb.
    destruct (String.eqb_spec (Bin.id b) s) as [E|N]; [|reflexivity].
    now apply Hnone in Hb.
  - rewrite map_map. apply map_ext. intros b.
    destruct (String.eqb_spec (Bin.id b) s) as [E|N]; simpl.
    + apply String.eqb_eq in E. now rewrite E.
    + apply String.eqb_neq in N. now rewrite N.
Qed.

Lemma report_marks_the_bin_full_witness :
  BinReport.heading
    (fst (BinReport.useEffect true (param_string "no-such-bin")
            BinReport.initial
            (mkRegistry []
               [Bin.mk "b1" None (QArith_base.Qmake 0 1)
                       (QArith_base.Qmake 0 1) Bin.empty None] []))) =
    "Thank You!" /\
  Bin_table
    (snd (BinReport.useEffect true (param_string "no-such-bin")
            BinReport.initial
            (mkRegistry []
               [Bin.mk "b1" None (QArith_base.Qmake 0 1)
                       (QArith_base.Qmake 0 1) Bin.empty None] []))) =
    [Bin.mk "b1" None (QArith_base.Qmake 0 1) (QArith_base.Qmake 0 1)
            Bin.empty None].
Proof.
  destruct (report_marks_the_bin_full "no-such-bin" BinReport.initial
              (mkRegistry []
                 [Bin.mk "b1" None (QArith_base.Qmake 0 1)
                         (QArith_base.Qmake 0 1) Bin.empty None] []))
    as (H1 & _ & _ & H4 & _).
  - discriminate.
  - reflexivity.
  - split; [exact H1|]. apply H4.
    intros b [<- | []]. discriminate.
Defined.

(** X17: the report page announces success exactly when the id in the
    address is one non-empty string and the update reached the store;
    in every other case it shows its error state and both tables are as
    they were. *)
Theorem report_succeeds_only_through_the_store
    (id : QueryParam) (v : BinReport.View) (r : Registry) :
  (BinReport.status (fst (BinReport.reportBinFull id v r)) =
     BinReport.status_success <->
   exists s, id = param_string s /\ s <> "" /\
             fst (next_registry_fault r) = None) /\
  (BinReport.status (fst (BinReport.reportBinFull id v r)) <>
     BinReport.status_success ->
   BinReport.status (fst (BinReport.reportBinFull id v r)) =
     BinReport.status_error /\
   Partner_table (snd (BinReport.reportBinFull id v r)) = Partner_table r /\
   Bin_table (snd (BinReport.reportBinFull id v r)) = Bin_table r).
Proof.
  destruct id as [|s|l]; simpl.
  - split; [split; [discriminate | intros (s & H & _); discriminate]|auto].
  - destruct (String.eqb_spec s "") as [-> | Hs]; simpl.
    + split; [|auto]. split; [discriminate|].
      intros (s & H & Hs & _). injection H as <-. contradiction.
    + unfold from_Bin_update, registry_round_trip.
      destruct (next_registry_fault r) as [[e|] rest]; simpl.
      * split; [|auto]. split; [discriminate|].
        intros (s' & _ & _ & H). discriminate.
      * split; [|intros H; contradiction].
        split; [|reflexivity]. intros _. exists s. auto.
  - split; [split; [discriminate | intros (s & H & _); discriminate]|auto].
Qed.

Lemma map_runs (v : BinMap.View) (r : Registry) :
  fst (next_registry_fault r) = None ->
  BinMap.fetchBinsAndPartners v r =
    (BinMap.mkView
       (flat_map
          (fun b =>
             if existsb (Bin.Status_eqb (Bin.status b)) [Bin.empty; Bin.full]
             then match partner_of (Partner_table r) b with
                  | Some p =>
                      if Partner.Status_eqb (Partner.status p)
                                            Partner.approved
                      then [(b, p)] else []
                  | None => []
                  end
             else [])
          (Bin_table r))
       false (BinMap.error_text v),
     mkRegistry (Partner_table r) (Bin_table r)
                (snd (next_registry_fault r))).
Proof.
  intros H. unfold BinMap.fetchBinsAndPartners,
    from_Bin_select_inner_approved_Partner.
  now rewrite (registry_round_trip_ok _ _ _ _ H).
Qed.

Lemma shown_on_map_spec (s : Bin.Status) :
  existsb (Bin.Status_eqb s) [Bin.empty; Bin.full] = true <-> shown_on_map s.
Proof. unfold shown_on_map. destruct s; simpl; split; intuition congruence. Qed.

Lemma on_the_map (partners : list Partner.row) (bins : list Bin.row)
    (b : Bin.row) (p : Partner.row) :
  In (b, p)
     (flat_map
        (fun b =>
           if existsb (Bin.Status_eqb (Bin.status b)) [Bin.empty; Bin.full]
           then match partner_of partners b with
                | Some p =>
                    if Partner.Status_eqb (Partner.status p) Partner.approved
                    then [(b, p)] else []
                | None => []
                end
           else [])
        bins) <->
  In b bins /\ shown_on_map (Bin.status b) /\
  partner_of partners b = Some p /\ Partner.status p = Partner.approved.
Proof.
  rewrite in_flat_map. split.
  - intros (b0 & Hin & H).
    destruct (existsb _ _) eqn:E; [|destruct H].
    destruct (partner_of partners b0) as [p0|] eqn:P; [|destruct H].
    destruct (Partner.Status_eqb _ _) eqn:S; [|destruct H].
    destruct H as [H | []]. injection H as -> ->.
    apply shown_on_map_spec in E. apply Partner_Status_eqb_eq in S. auto.
  - intros (Hin & Hs & Hp & Ha). exists b. split; [exact Hin|].
    apply shown_on_map_spec in Hs. apply Partner_Status_eqb_eq in Ha.
    rewrite Hs, Hp, Ha. now left.
Qed.

(** X18: the public map.  When the read reaches the store, the page
    stops loading and shows exactly the bins whose status is [empty] or
    [full] and whose partner exists and is approved, each with that
    partner: a bin that needs pickup, a bin without a partner and a bin
    of a pending partner are not shown.  The map is centred on the first
    bin shown, or on London when none is.  No row is changed. *)
Theorem map_shows_bins_of_approved_partners (v : BinMap.View) (r : Registry) :
  fst (next_registry_fault r) = None ->
  BinMap.loading (fst (BinMap.fetchBinsAndPartners v r)) = false /\
  Partner_table (snd (BinMap.fetchBinsAndPartners v r)) = Partner_table r /\
  Bin_table (snd (BinMap.fetchBinsAndPartners v r)) = Bin_table r /\
  (forall b p,
      In (b, p) (BinMap.bins (fst (BinMap.fetchBinsAndPartners v r))) <->
      In b (Bin_table r) /\ shown_on_map (Bin.status b) /\
      partner_of (Partner_table r) b = Some p /\
      Partner.status p = Partner.approved) /\
  (BinMap.bins (fst (BinMap.fetchBinsAndPartners v r)) = [] ->
   BinMap.mapCenter (fst (BinMap.fetchBinsAndPartners v r)) =
     BinMap.defaultCenter) /\
  (forall b p rest,
      BinMap.bins (fst (BinMap.fetchBinsAndPartners v r)) = (b, p) :: rest ->
      BinMap.mapCenter (fst (BinMap.fetchBinsAndPartners v r)) =
        (Bin.lat b, Bin.lng b)).
Proof.
  intros H. rewrite (map_runs v r H). cbn [fst snd BinMap.loading
    BinMap.bins Partner_table Bin_table].
  split; [reflexivity|]. split; [reflexivity|]. split; [reflexivity|].
  split; [intros b p; apply on_the_map|].
  unfold BinMap.mapCenter. cbn [BinMap.bins].
  split; [now intros ->|]. intros b p rest ->. reflexivity.
Qed.

Lemma map_shows_bins_of_approved_partners_witness :
  BinMap.bins
    (fst (BinMap.fetchBinsAndPartners BinMap.initial
       (mkRegistry
          [Partner.mk "p1" "Cafe" "1 High Street, London"
                      (QArith_base.Qmake 515 10) (QArith_base.Qmake (-1) 10)
                      Partner.approved 100;
           Partner.mk "p2" "Shop" "2 High Street, London"
                      (QArith_base.Qmake 515 10) (QArith_base.Qmake (-1) 10)
                      Partner.pending 200]
          [Bin.mk "b1" (Some "p1") (QArith_base.Qmake 515 10)
                  (QArith_base.Qmake (-1) 10) Bin.needs_pickup None;
           Bin.mk "b2" (Some "p2") (QArith_base.Qmake 515 10)
                  (QArith_base.Qmake (-1) 10) Bin.empty None;
           Bin.mk "b3" (Some "p1") (QArith_base.Qmake 515 10)
                  (QArith_base.Qmake (-1) 10) Bin.full None]
          []))) <> [] /\
  BinMap.loading
    (fst (BinMap.fetchBinsAndPartners BinMap.initial
       (mkRegistry
          [Partner.mk "p1" "Cafe" "1 High Street, London"
                      (QArith_base.Qmake 515 10) (QArith_base.Qmake (-1) 10)
                      Partner.approved 100;
           Partner.mk "p2" "Shop" "2 High Street, London"
                      (QArith_base.Qmake 515 10) (QArith_base.Qmake (-1) 10)
                      Partner.pending 200]
          [Bin.mk "b1" (Some "p1") (QArith_base.Qmake 515 10)
                  (QArith_base.Qmake (-1) 10) Bin.needs_pickup None;
           Bin.mk "b2" (Some "p2") (QArith_base.Qmake 515 10)
                  (QArith_base.Qmake (-1) 10) Bin.empty None;
           Bin.mk "b3" (Some "p1") (QArith_base.Qmake 515 10)
                  (QArith_base.Qmake (-1) 10) Bin.full None]
          []))) = false.
Proof.
  split; [discriminate|].
  apply map_shows_bins_of_approved_partners. reflexivity.
Defined.

(* ================================================================== *)
(** ** Across pages: the dashboard, the report page and the map        *)
(* ================================================================== *)

(** The partner of a bin after the status of the partners with id [i]
    was set to [s]. *)
Lemma partner_of_after_status_update (s : Partner.Status) (i : string)
    (partners : list Partner.row) (b : Bin.row) :
  partner_of
    (map (fun p =>
            if String.eqb (Partner.id p) i
            then Partner.mk (Partner.id p) (Partner.name p)
                            (Partner.address p) (Partner.lat p)
                            (Partner.lng p) s (Partner.created_at p)
            else p)
         partners) b =
  option_map
    (fun p =>
       if String.eqb (Partner.id p) i
       then Partner.mk (Partner.id p) (Partner.name p)
                       (Partner.address p) (Partner.lat p)
                       (Partner.lng p) s (Partner.created_at p)
       else p)
    (partner_of partners b).
Proof.
  unfold partner_of. destruct (Bin.partner_id b) as [pid|]; [|reflexivity].
  induction partners as [|p l IH]; simpl; [reflexivity|].
  destruct (String.eqb (Partner.id p) i) eqn:Ei; simpl;
    destruct (String.eqb (Partner.id p) pid); simpl;
    rewrite ?Ei; auto.
Qed.

(** X19: the dashboard decides what the map shows.  With no failing
    round trip: once a partner is approved, every bin of that partner
    whose status is [empty] or [full] is on the map, with the partner
    now approved; once "Reject" has set a partner back to [pending], no
    bin of that partner is on the map. *)
Theorem approval_puts_the_bins_on_the_map
    (p : Partner.row) (b : Bin.row) (v : BinMap.View) (r : Registry) :
  registry_no_faults r ->
  In b (Bin_table r) ->
  partner_of (Partner_table r) b = Some p ->
  (shown_on_map (Bin.status b) ->
   In (b, Partner.mk (Partner.id p) (Partner.name p) (Partner.address p)
                     (Partner.lat p) (Partner.lng p) Partner.approved
                     (Partner.created_at p))
      (BinMap.bins
         (fst (BinMap.fetchBinsAndPartners v
                 (snd (AdminBackupPartners.Approve p r)))))) /\
  (forall q,
      ~ In (b, q)
          (BinMap.bins
             (fst (BinMap.fetchBinsAndPartners v
                     (snd (AdminBackupPartners.Reject p r)))))).
Proof.
  intros Hr Hb Hp.
  unfold AdminBackupPartners.Approve, AdminBackupPartners.Reject.
  rewrite !(update_status_runs _ _ r Hr). cbn [snd].
  rewrite !map_runs by reflexivity. cbn [fst BinMap.bins].
  cbn [Partner_table Bin_table]. split.
  - intros Hs. apply on_the_map.
    rewrite partner_of_after_status_update, Hp. simpl.
    rewrite String.eqb_refl. auto.
  - intros q Hq. apply on_the_map in Hq as (_ & _ & Hq & Ha).
    rewrite partner_of_after_status_update, Hp in Hq. simpl in Hq.
    rewrite String.eqb_refl in Hq. injection Hq as <-.
    simpl in Ha. discriminate Ha.
Qed.

Lemma approval_puts_the_bins_on_the_map_witness :
  In (Bin.mk "b1" (Some "p1") (QArith_base.Qmake 515 10)
             (QArith_base.Qmake (-1) 10) Bin.full None,
      Partner.mk "p1" "Cafe" "1 High Street, London"
                 (QArith_base.Qmake 515 10) (QArith_base.Qmake (-1) 10)
                 Partner.approved 100)
     (BinMap.bins
        (fst (BinMap.fetchBinsAndPartners BinMap.initial
                (snd (AdminBackupPartners.Approve
                        (Partner.mk "p1" "Cafe" "1 High Street, London"
                                    (QArith_base.Qmake 515 10)
                                    (QArith_base.Qmake (-1) 10)
                                    Partner.pending 100)
                        (mkRegistry
                           [Partner.mk "p1" "Cafe" "1 High Street, London"
                                       (QArith_base.Qmake 515 10)
                                       (QArith_base.Qmake (-1) 10)
                                       Partner.pending 100]
                           [Bin.mk "b1" (Some "p1") (QArith_base.Qmake 515 10)
                                   (QArith_base.Qmake (-1) 10) Bin.full None]
                           [])))))).
Proof.
  apply (approval_puts_the_bins_on_the_map
           (Partner.mk "p1" "Cafe" "1 High Street, London"
                       (QArith_base.Qmake 515 10) (QArith_base.Qmake (-1) 10)
                       Partner.pending 100)
           (Bin.mk "b1" (Some "p1") (QArith_base.Qmake 515 10)
                   (QArith_base.Qmake (-1) 10) Bin.full None)
           BinMap.initial
           (mkRegistry
              [Partner.mk "p1" "Cafe" "1 High Street, London"
                          (QArith_base.Qmake 515 10)
                          (QArith_base.Qmake (-1) 10)
                          Partner.pending 100]
              [Bin.mk "b1" (Some "p1") (QArith_base.Qmake 515 10)
                      (QArith_base.Qmake (-1) 10) Bin.full None]
              [])).
  - reflexivity.
  - simpl. now left.
  - reflexivity.
  - now right.
Defined.

(** X20: from the report page to the map.  With no failing round trip,
    after a report for a bin of an approved partner the map shows that
    bin as [full], whatever its status was before, a bin that needed
    pickup included. *)
Theorem reported_bin_is_on_the_map_as_full
    (s : string) (b : Bin.row) (p : Partner.row)
    (v0 : BinReport.View) (v : BinMap.View) (r : Registry) :
  s <> "" ->
  registry_no_faults r ->
  In b (Bin_table r) ->
  Bin.id b = s ->
  partner_of (Partner_table r) b = Some p ->
  Partner.status p = Partner.approved ->
  In (Bin.mk (Bin.id b) (Bin.partner_id b) (Bin.lat b) (Bin.lng b)
             Bin.full (Bin.last_emptied_at b), p)
     (BinMap.bins
        (fst (BinMap.fetchBinsAndPartners v
                (snd (BinReport.useEffect true (param_string s) v0 r))))).
Proof.
  intros Hs Hr Hb Hid Hp Ha. unfold BinReport.useEffect.
  pose proof (registry_no_faults_next r Hr) as Hnext.
  rewrite (report_runs s v0 r Hs) by now rewrite Hnext.
  rewrite Hnext. cbn [snd]. rewrite map_runs by reflexivity.
  cbn [fst BinMap.bins Partner_table Bin_table].
  apply on_the_map. split; [|split; [now right|split; [exact Hp|exact Ha]]].
  apply in_map_iff. exists b. split; [|exact Hb].
  apply String.eqb_eq in Hid. now rewrite Hid.
Qed.

Lemma reported_bin_is_on_the_map_as_full_witness :
  In (Bin.mk "b1" (Some "p1") (QArith_base.Qmake 515 10)
             (QArith_base.Qmake (-1) 10) Bin.full None,
      Partner.mk "p1" "Cafe" "1 High Street, London"
                 (QArith_base.Qmake 515 10) (QArith_base.Qmake (-1) 10)
                 Partner.approved 100)
     (BinMap.bins
        (fst (BinMap.fetchBinsAndPartners BinMap.initial
                (snd (BinReport.useEffect true (param_string "b1")
                        BinReport.initial
                        (mkRegistry
                           [Partner.mk "p1" "Cafe" "1 High Street, London"
                                       (QArith_base.Qmake 515 10)
                                       (QArith_base.Qmake (-1) 10)
                                       Partner.approved 100]
                           [Bin.mk "b1" (Some "p1") (QArith_base.Qmake 515 10)
                                   (QArith_base.Qmake (-1) 10)
                                   Bin.needs_pickup None]
                           [])))))).
Proof.
  apply (reported_bin_is_on_the_map_as_full "b1"
           (Bin.mk "b1" (Some "p1") (QArith_base.Qmake 515 10)
                   (QArith_base.Qmake (-1) 10) Bin.needs_pickup None)
           (Partner.mk "p1" "Cafe" "1 High Street, London"
                       (QArith_base.Qmake 515 10) (QArith_base.Qmake (-1) 10)
                       Partner.approved 100)).
  - discriminate.
  - reflexivity.
  - simpl. now left.
  - reflexivity.
  - reflexivity.
  - reflexivity.
Defined.

(* ================================================================== *)
(** ** The partner application form                                    *)
(* ================================================================== *)

Lemma valid_lengths (d : PartnerJoin.FormData) :
  PartnerJoin.valid d = true ->
  (2 <= String.length (PartnerJoin.name d))%nat /\
  (10 <= String.length (PartnerJoin.address d))%nat.
Proof.
  unfold PartnerJoin.valid. rewrite !andb_true_iff, !Nat.leb_le. tauto.
Qed.

(** What a submission that reports success has done. *)
Lemma join_success_facts
    (parseFloat : string -> Numeric) (d : PartnerJoin.FormData)
    (f : PartnerJoin.Fetched) (generated_id : string) (db_now : Timestamp)
    (r : Registry) (view : PartnerJoin.View) :
  fst (PartnerJoin.handleSubmit parseFloat d f generated_id db_now r) =
    Some view ->
  PartnerJoin.isSuccess view = true ->
  exists first others,
    f = PartnerJoin.fetch_response true (Some (first :: others)) /\
    Partner_table (snd (PartnerJoin.handleSubmit parseFloat d f
                          generated_id db_now r)) =
      (Partner_table r ++
       [Partner.mk generated_id (PartnerJoin.name d)
                   (PartnerJoin.address d)
                   (parseFloat (PartnerJoin.lat first))
                   (parseFloat (PartnerJoin.lon first))
                   Partner.pending db_now])%list /\
    registry_faults (snd (PartnerJoin.handleSubmit parseFloat d f
                            generated_id db_now r)) =
      snd (next_registry_fault r).
Proof.
  unfold PartnerJoin.handleSubmit.
  destruct (PartnerJoin.valid d); cbn [fst snd]; [|discriminate].
  unfold PartnerJoin.onSubmit.
  destruct f as [|[|] [[|first others]|]]; cbn [PartnerJoin.geocodeAddress];
    try (intros H; injection H as <-; discriminate).
  unfold from_Partner_insert, registry_round_trip.
  destruct (next_registry_fault r) as [[e|] rest]; cbn;
    intros H; injection H as <-; [discriminate|].
  intros _. exists first, others. auto.
Qed.

(** X21: what a submission of the partner form can leave in the store.
    Either the page reports success, and then the form passed its rules
    (a name of at least 2 and an address of at least 10 characters),
    the geocoder answered with at least one result, and exactly one row
    was appended to the partners: the applicant's name and address, the
    coordinates of the first result, status [pending]; or the page does
    not report success, and then the partners are as they were.  The
    bins are never touched, and the form is never left submitting. *)
Theorem join_stores_one_pending_application
    (parseFloat : string -> Numeric) (d : PartnerJoin.FormData)
    (f : PartnerJoin.Fetched) (generated_id : string) (db_now : Timestamp)
    (r : Registry) :
  Bin_table (snd (PartnerJoin.handleSubmit parseFloat d f generated_id
                    db_now r)) = Bin_table r /\
  (forall view,
      fst (PartnerJoin.handleSubmit parseFloat d f generated_id db_now r) =
        Some view ->
      PartnerJoin.isSubmitting view = false) /\
  (((exists view,
        fst (PartnerJoin.handleSubmit parseFloat d f generated_id db_now r) =
          Some view /\
        PartnerJoin.isSuccess view = true) /\
    (2 <= String.length (PartnerJoin.name d))%nat /\
    (10 <= String.length (PartnerJoin.address d))%nat /\
    exists first others,
      f = PartnerJoin.fetch_response true (Some (first :: others)) /\
      Partner_table (snd (PartnerJoin.handleSubmit parseFloat d f
                            generated_id db_now r)) =
        (Partner_table r ++
         [Partner.mk generated_id (PartnerJoin.name d)
                     (PartnerJoin.address d)
                     (parseFloat (PartnerJoin.lat first))
                     (parseFloat (PartnerJoin.lon first))
                     Partner.pending db_now])%list)
   \/
   ((forall view,
        fst (PartnerJoin.handleSubmit parseFloat d f generated_id db_now r) =
          Some view ->
        PartnerJoin.isSuccess view = false /\
        exists message, In (notice_error message) (PartnerJoin.notices view)) /\
    Partner_table (snd (PartnerJoin.handleSubmit parseFloat d f generated_id
                          db_now r)) = Partner_table r)).
Proof.
  unfold PartnerJoin.handleSubmit.
  destruct (PartnerJoin.valid d) eqn:V; cbn [fst snd].
  2:{ split; [reflexivity|]. split; [discriminate|].
      right. split; [discriminate|reflexivity]. }
  destruct (valid_lengths d V) as [Hn Ha].
  unfold PartnerJoin.onSubmit.
  destruct f as [|[|] [[|first others]|]]; cbn [PartnerJoin.geocodeAddress];
    try (split; [reflexivity|];
         split; [intros view H; injection H as <-; reflexivity|];
         right; split; [|reflexivity];
         intros view H; injection H as <-; split; [reflexivity|];
         eexists; simpl; eauto).
  unfold from_Partner_insert, registry_round_trip.
  destruct (next_registry_fault r) as [[e|] rest]; cbn.
  - split; [reflexivity|].
    split; [intros view H; injection H as <-; reflexivity|].
    right; split; [|reflexivity].
    intros view H; injection H as <-; split; [reflexivity|].
    eexists; simpl; eauto.
  - split; [reflexivity|].
    split; [intros view H; injection H as <-; reflexivity|].
    left. split; [eexists; split; reflexivity|].
    split; [exact Hn|]. split; [exact Ha|].
    exists first, others. split; reflexivity.
Qed.

(** X22: an application that the form reported as submitted is on the
    dashboard's list of pending partners at the next read that reaches
    the store. *)
Theorem submitted_application_awaits_approval
    (parseFloat : string -> Numeric) (d : PartnerJoin.FormData)
    (f : PartnerJoin.Fetched) (generated_id : string) (db_now : Timestamp)
    (r : Registry) (view : PartnerJoin.View) :
  registry_no_faults r ->
  fst (PartnerJoin.handleSubmit parseFloat d f generated_id db_now r) =
    Some view ->
  PartnerJoin.isSuccess view = true ->
  exists listed r' applicant,
    pendingPartners_queryFn
      (snd (PartnerJoin.handleSubmit parseFloat d f generated_id db_now r)) =
      (inr (Some listed), r') /\
    In applicant listed /\
    Partner.id applicant = generated_id /\
    Partner.name applicant = PartnerJoin.name d /\
    Partner.address applicant = PartnerJoin.address d /\
    Partner.status applicant = Partner.pending.
Proof.
  intros Hr Hview Hsuccess.
  destruct (join_success_facts parseFloat d f generated_id db_now r view
              Hview Hsuccess)
    as (first & others & Hf & Htable & Hfaults).
  rewrite pendingPartners_runs.
  - do 2 eexists.
    exists (Partner.mk generated_id (PartnerJoin.name d)
                       (PartnerJoin.address d)
                       (parseFloat (PartnerJoin.lat first))
                       (parseFloat (PartnerJoin.lon first))
                       Partner.pending db_now).
    split; [reflexivity|]. split.
    + apply In_pending_list. rewrite Htable. split; [|reflexivity].
      apply in_or_app. right. now left.
    + simpl. auto.
  - unfold next_registry_fault at 1. rewrite Hfaults.
    now rewrite (registry_no_faults_next r Hr).
Qed.

Lemma submitted_application_awaits_approval_witness :
  exists listed r' applicant,
    pendingPartners_queryFn
      (snd (PartnerJoin.handleSubmit
              (fun _ => QArith_base.Qmake 515 10)
              (PartnerJoin.mkFormData "Cafe" "1 High Street, London")
              (PartnerJoin.fetch_response true
                 (Some [PartnerJoin.mkGeocodingResult "51.5" "-0.1" "London"]))
              "p9" 900 (mkRegistry [] [] []))) =
      (inr (Some listed), r') /\
    In applicant listed /\
    Partner.id applicant = "p9" /\
    Partner.name applicant = "Cafe" /\
    Partner.address applicant = "1 High Street, London" /\
    Partner.status applicant = Partner.pending.
Proof.
  apply (submitted_application_awaits_approval
           (fun _ => QArith_base.Qmake 515 10)
           (PartnerJoin.mkFormData "Cafe" "1 High Street, London")
           (PartnerJoin.fetch_response true
              (Some [PartnerJoin.mkGeocodingResult "51.5" "-0.1" "London"]))
           "p9" 900 (mkRegistry [] [] [])
           (PartnerJoin.mkView
              [notice_info "Looking up address...";
               notice_info "Submitting application...";
               notice_success "Application submitted successfully!"]
              true false)).
  - reflexivity.
  - reflexivity.
  - reflexivity.
Defined.

Lemma updateBin_status_runs (i : string) (s : Bin.Status) (r : Registry) :
  registry_no_faults r ->
  AdminBackupPartners.updateBin i (Bin.only_status s) r =
    (toast_success "Bin updated",
     mkRegistry (Partner_table r)
       (map (fun b => if String.eqb (Bin.id b) i
                      then Bin.mk (Bin.id b) (Bin.partner_id b) (Bin.lat b)
                                  (Bin.lng b) s (Bin.last_emptied_at b)
                      else b)
            (Bin_table r))
       []).
Proof.
  intros H. unfold AdminBackupPartners.updateBin, toasted, settled,
    from_Bin_update, registry_round_trip.
  now rewrite (registry_no_faults_next r H).
Qed.

(** X23: the status an admin gives a bin decides whether the public
    sees it.  With no failing round trip: after a bin was set to
    [needs_pickup], no bin with that id is on the map; after it was set
    to [empty] or [full], every bin with that id whose partner is
    approved is on the map with the new status.  The [updateBin] of the
    other dashboard leaves the same store. *)
Theorem bin_status_decides_the_map
    (i : string) (s : Bin.Status) (v : BinMap.View) (r : Registry) :
  registry_no_faults r ->
  snd (AdminNewPartners.updateBin i (Bin.only_status s) r) =
    snd (AdminBackupPartners.updateBin i (Bin.only_status s) r) /\
  (s = Bin.needs_pickup ->
   forall b p,
     In (b, p)
        (BinMap.bins
           (fst (BinMap.fetchBinsAndPartners v
                   (snd (AdminBackupPartners.updateBin i
                           (Bin.only_status s) r))))) ->
     Bin.id b <> i) /\
  (shown_on_map s ->
   forall b p,
     In b (Bin_table r) ->
     Bin.id b = i ->
     partner_of (Partner_table r) b = Some p ->
     Partner.status p = Partner.approved ->
     In (Bin.mk (Bin.id b) (Bin.partner_id b) (Bin.lat b) (Bin.lng b) s
                (Bin.last_emptied_at b), p)
        (BinMap.bins
           (fst (BinMap.fetchBinsAndPartners v
                   (snd (AdminBackupPartners.updateBin i
                           (Bin.only_status s) r)))))).
Proof.
  intros Hr. split.
  { unfold AdminNewPartners.updateBin, AdminBackupPartners.updateBin,
      toasted, settled, from_Bin_update, registry_round_trip.
    now rewrite (registry_no_faults_next r Hr). }
  rewrite (updateBin_status_runs i s r Hr). cbn [snd].
  rewrite map_runs by reflexivity.
  cbn [fst BinMap.bins Partner_table Bin_table]. split.
  - intros -> b p Hin. apply on_the_map in Hin as (Hin & Hs & _).
    apply in_map_iff in Hin as (b0 & <- & _).
    destruct (String.eqb_spec (Bin.id b0) i) as [E | N]; [|exact N].
    simpl in Hs. destruct Hs; discriminate.
  - intros Hs b p Hin Hid Hp Ha. apply on_the_map.
    split; [|split; [exact Hs|split; [exact Hp|exact Ha]]].
    apply in_map_iff. exists b. split; [|exact Hin].
    apply String.eqb_eq in Hid. now rewrite Hid.
Qed.

Lemma bin_status_decides_the_map_witness :
  In (Bin.mk "b1" (Some "p1") (QArith_base.Qmake 515 10)
             (QArith_base.Qmake (-1) 10) Bin.empty None,
      Partner.mk "p1" "Cafe" "1 High Street, London"
                 (QArith_base.Qmake 515 10) (QArith_base.Qmake (-1) 10)
                 Partner.approved 100)
     (BinMap.bins
        (fst (BinMap.fetchBinsAndPartners BinMap.initial
                (snd (AdminBackupPartners.updateBin "b1"
                        (Bin.only_status Bin.empty)
                        (mkRegistry
                           [Partner.mk "p1" "Cafe" "1 High Street, London"
                                       (QArith_base.Qmake 515 10)
                                       (QArith_base.Qmake (-1) 10)
                                       Partner.approved 100]
                           [Bin.mk "b1" (Some "p1")
                                   (QArith_base.Qmake 515 10)
                                   (QArith_base.Qmake (-1) 10)
                                   Bin.needs_pickup None]
                           [])))))).
Proof.
  destruct (bin_status_decides_the_map "b1" Bin.empty BinMap.initial
              (mkRegistry
                 [Partner.mk "p1" "Cafe" "1 High Street, London"
                             (QArith_base.Qmake 515 10)
                             (QArith_base.Qmake (-1) 10)
                             Partner.approved 100]
                 [Bin.mk "b1" (Some "p1") (QArith_base.Qmake 515 10)
                         (QArith_base.Qmake (-1) 10) Bin.needs_pickup None]
                 []) eq_refl)
    as (_ & _ & Hshown).
  apply (Hshown (or_introl eq_refl)
           (Bin.mk "b1" (Some "p1") (QArith_base.Qmake 515 10)
                   (QArith_base.Qmake (-1) 10) Bin.needs_pickup None)).
  - simpl. now left.
  - reflexivity.
  - reflexivity.
  - reflexivity.
Defined.
